(** * SveltyCMS authentication core: a shallow embedding and its properties

    The development follows the TypeScript sources

    - [src/auth/index.ts]                  (class [Auth])
    - [src/databases/redis.ts]             (the session cache)
    - [src/auth/mongoDBAuth/roleAdapter.ts] (class [RoleAdapter], and the
      role and permission declarations with [sanitizePermissions])
    - [src/utils/utils.ts]                 ([sanitize], [removeExtension])

    Asynchronous methods become computations in a state-and-exception monad
    over a [World] that holds the document store, the Redis client, the
    configuration flag and the clock.  A rejected promise / thrown [Error] is
    [Throw message].  Every call that leaves the process (persistence port,
    argon2, Redis) is recorded in the world's [trace], so that "is never
    invoked" and "is attempted" are statements about that trace. *)

From Stdlib Require Import ZArith Lia List.
From stdpp Require Import base strings pretty gmap list.

Local Open Scope string_scope.
Local Open Scope list_scope.
Local Open Scope Z_scope.

(* ===================================================================== *)
(** ** JavaScript values the code manipulates *)
(* ===================================================================== *)

Module Js.

(** Outcome of an [await]ed call: a value, or a thrown [Error] identified
    by its [message]. *)
Inductive Result (A : Type) : Type :=
| Ok (a : A)
| Throw (message : string).
Arguments Ok {A} a.
Arguments Throw {A} message.

(** [!!s] for a possibly undefined string: the empty string is falsy. *)
Definition truthy_string (s : option string) : bool :=
  match s with
  | Some s => negb (String.eqb s "")
  | None => false
  end.

(** [n || 0] for a possibly undefined number. *)
Definition or_zero (n : option Z) : Z :=
  match n with
  | Some n => n
  | None => 0
  end.

End Js.
Export Js.

(* ===================================================================== *)
(** ** JSON documents *)
(* ===================================================================== *)

(** What [JSON.stringify] produces and [JSON.parse] reads, as a tree; the
    concrete character syntax is not modelled.  [JIso t] is a JSON string
    like [JStr]: the ISO-8601 text [toISOString()] gives for the instant [t]
    (milliseconds since the epoch), with its characters left out.  It is what
    a [Date] is written as, and [JSON.parse] hands it back as that string, not
    as a [Date]. *)
#[warnings="-register-all"]
Inductive json : Type :=
| JNull
| JBool (b : bool)
| JNum (n : Z)
| JStr (s : string)
| JIso (t : Z)
| JObj (fields : list (string * json)).

(** Truthiness of a parsed document. *)
Definition json_truthy (j : json) : bool :=
  match j with
  | JNull => false
  | JBool b => b
  | JNum n => negb (Z.eqb n 0)
  | JStr s => negb (String.eqb s "")
  | JIso _ => true
  | JObj _ => true
  end.

(** Property access [o[k]] on a parsed document ([None] is [undefined]). *)
Fixpoint assoc (k : string) (fs : list (string * json)) : option json :=
  match fs with
  | [] => None
  | (k', v) :: fs => if String.eqb k k' then Some v else assoc k fs
  end.

Definition json_get (k : string) (j : json) : option json :=
  match j with
  | JObj fs => assoc k fs
  | _ => None
  end.

(* ===================================================================== *)
(** ** Data model (the [User], [Session] and [Role] the code imports) *)
(* ===================================================================== *)

Module Types.

(** What a date attribute holds at run time: a [Date] object, or, once the
  document went through JSON, the ISO-8601 string that [Date] was written
  as.  Instants are in milliseconds since the epoch. *)
Inductive DateValue : Type :=
| DateObject (t : Z)
| IsoString (t : Z).

(** [new Date(d).getTime()], which reads a [Date] and its ISO string as the
  same instant. *)
Definition instant (d : DateValue) : Z :=
  match d with
  | DateObject t => t
  | IsoString t => t
  end.

(** [Omit<Partial<User>, '_id'>]: every attribute may be absent.
  [lockoutUntil = None] covers both [undefined] and [null], which the code
  never tells apart. *)
Record UserFields : Type := {
email : option string;
password : option string;
username : option string;
role : option string;
lastAuthMethod : option string;
isRegistered : option bool;
failedAttempts : option Z;
lockoutUntil : option DateValue
}.

Record User : Type := {
_id : string;
fields :> UserFields
}.

(** The [Partial<User>] objects that [login] hands to
  [updateUserAttributes]: [failedAttempts] may be present, [lockoutUntil]
  may be absent ([None]), [null] ([Some None]) or a date. *)
Record UserPatch : Type := {
patch_failedAttempts : option Z;
patch_lockoutUntil : option (option DateValue)
}.

Record Session : Type := {
session_id : string;
user_id : string;
device_id : string;
expires : Z
}.

(** [Partial<Role>] as [createRole] receives it, and the stored document. *)
Record RoleData : Type := {
name : option string;
description : option string
}.

Record Role : Type := {
role_id : string;
role_name : string;
role_description : option string;
role_permissions : list string
}.

End Types.
Export Types.

(* ===================================================================== *)
(** ** The world outside the process *)
(* ===================================================================== *)

(** One entry per call that leaves the process.  Logger calls are not
    recorded: they have no effect any method observes. *)
Inductive call : Type :=
| DbGetUserByEmail (email : string)
| DbGetUserById (user_id : string)
| DbCreateUser (data : UserFields)
| DbUpdateUserAttributes (user_id : string) (attributes : UserPatch)
| DbGetActiveSessionByDeviceId (user_id device_id : string)
| DbUpdateSessionExpiry (session_id : string) (ttl : Z)
| DbCreateSession (user_id device_id : string) (ttl : Z)
| DbDestroySession (session_id : string)
| DbValidateSession (session_id : string)
| RoleFindOne (name : string)
| RoleSave (data : RoleData)
| Argon2Hash (plain : string)
| Argon2Verify (hash plain : string)
| RedisGet (key : string)
| RedisSet (key : string) (value : json) (ex : Z)
| RedisDel (key : string).

(** - [users], [sessions], [roles]: the collections behind the persistence
      port, in insertion order; [next_id] feeds the identifiers it hands out.
    - [db_fault = Some msg]: the store is unreachable, every port call
      rejects with [msg].
    - [USE_REDIS]: the configuration flag [privateEnv.USE_REDIS].
    - [redisClient]: the module-level [let redisClient] of redis.ts, [None]
      for [null], otherwise the key space of the connected server: each key
      holds a document and the instant at which it expires.
    - [redis_fault = Some msg]: every Redis command rejects with [msg].
    - [now]: the clock read by [new Date()] and [Date.now()]. *)
Record World : Type := {
  users : list User;
  sessions : list Session;
  roles : list Role;
  next_id : N;
  db_fault : option string;
  USE_REDIS : bool;
  redisClient : option (gmap string (json * Z));
  redis_fault : option string;
  now : Z;
  trace : list call
}.

Definition set_users (us : list User) (w : World) : World :=
  {| users := us; sessions := sessions w; roles := roles w;
     next_id := next_id w; db_fault := db_fault w; USE_REDIS := USE_REDIS w;
     redisClient := redisClient w; redis_fault := redis_fault w;
     now := now w; trace := trace w |}.

Definition set_sessions (ss : list Session) (w : World) : World :=
  {| users := users w; sessions := ss; roles := roles w;
     next_id := next_id w; db_fault := db_fault w; USE_REDIS := USE_REDIS w;
     redisClient := redisClient w; redis_fault := redis_fault w;
     now := now w; trace := trace w |}.

Definition set_roles (rs : list Role) (w : World) : World :=
  {| users := users w; sessions := sessions w; roles := rs;
     next_id := next_id w; db_fault := db_fault w; USE_REDIS := USE_REDIS w;
     redisClient := redisClient w; redis_fault := redis_fault w;
     now := now w; trace := trace w |}.

Definition set_next_id (n : N) (w : World) : World :=
  {| users := users w; sessions := sessions w; roles := roles w;
     next_id := n; db_fault := db_fault w; USE_REDIS := USE_REDIS w;
     redisClient := redisClient w; redis_fault := redis_fault w;
     now := now w; trace := trace w |}.

Definition set_redisClient (c : option (gmap string (json * Z))) (w : World) : World :=
  {| users := users w; sessions := sessions w; roles := roles w;
     next_id := next_id w; db_fault := db_fault w; USE_REDIS := USE_REDIS w;
     redisClient := c; redis_fault := redis_fault w;
     now := now w; trace := trace w |}.

Definition set_now (t : Z) (w : World) : World :=
  {| users := users w; sessions := sessions w; roles := roles w;
     next_id := next_id w; db_fault := db_fault w; USE_REDIS := USE_REDIS w;
     redisClient := redisClient w; redis_fault := redis_fault w;
     now := t; trace := trace w |}.

(** Appends a call to the trace. *)
Definition record (c : call) (w : World) : World :=
  {| users := users w; sessions := sessions w; roles := roles w;
     next_id := next_id w; db_fault := db_fault w; USE_REDIS := USE_REDIS w;
     redisClient := redisClient w; redis_fault := redis_fault w;
     now := now w; trace := trace w ++ [c] |}.

(* ===================================================================== *)
(** ** Promises: state and exceptions *)
(* ===================================================================== *)

Definition M (A : Type) : Type := World → Result A * World.

Definition ret {A} (a : A) : M A := λ w, (Ok a, w).

Definition throw {A} (message : string) : M A := λ w, (Throw message, w).

Definition bind {A B} (m : M A) (k : A → M B) : M B :=
  λ w, match m w with
       | (Ok a, w') => k a w'
       | (Throw e, w') => (Throw e, w')
       end.

(** [try { m } catch (error) { h error.message }] *)
Definition try_catch {A} (m : M A) (h : string → M A) : M A :=
  λ w, match m w with
       | (Ok a, w') => (Ok a, w')
       | (Throw e, w') => h e w'
       end.

(** [new Date()] / [Date.now()] *)
Definition Date_now : M Z := λ w, (Ok (now w), w).

Declare Scope js_scope.
Delimit Scope js_scope with js.
Notation "x <- m ;; k" := (bind m (λ x, k))
  (at level 100, m at next level, right associativity) : js_scope.
Notation "m ;; k" := (bind m (λ _, k))
  (at level 100, right associativity) : js_scope.
Local Open Scope js_scope.

(* ===================================================================== *)
(** ** Persistence port ([authDBInterface]) *)
(* ===================================================================== *)

(** The storage adapter behind [authDBInterface] is not part of the sources
    at hand; an in-memory one stands in for it.  [port c op] is the shape
    every method shares: the call is recorded, and it rejects when the store
    is unreachable. *)
Definition port {A} (c : call) (op : World → Result A * World) : M A :=
  λ w, let w := record c w in
       match db_fault w with
       | Some e => (Throw e, w)
       | None => op w
       end.

(** Identifier number [n], as text. *)
Definition fresh_id (prefix : string) (n : N) : string :=
  prefix +:+ pretty n.

Definition has_email (e : string) (u : User) : bool :=
  match email u with
  | Some e' => String.eqb e' e
  | None => false
  end.

Definition has_id (id : string) (u : User) : bool := String.eqb (_id u) id.

Definition apply_patch (p : UserPatch) (u : User) : User :=
  {| _id := _id u;
     fields :=
       {| email := email u; password := password u; username := username u;
          role := role u; lastAuthMethod := lastAuthMethod u;
          isRegistered := isRegistered u;
          failedAttempts :=
            match patch_failedAttempts p with
            | Some n => Some n
            | None => failedAttempts u
            end;
          lockoutUntil :=
            match patch_lockoutUntil p with
            | Some l => l
            | None => lockoutUntil u
            end |} |}.

(** Rewrites the first element that satisfies [p], as [updateOne] does. *)
Fixpoint update_first {A} (p : A → bool) (f : A → A) (l : list A) : list A :=
  match l with
  | [] => []
  | x :: l => if p x then f x :: l else x :: update_first p f l
  end.

(** Modelled from the spec: [getUserByEmail] of the persistence port (§6),
    the user whose email is the one asked for, [null] when there is none. *)
Definition db_getUserByEmail (e : string) : M (option User) :=
  port (DbGetUserByEmail e) (λ w, (Ok (find (has_email e) (users w)), w)).

(** Modelled from the spec: [getUserById] of the persistence port (§6). *)
Definition db_getUserById (id : string) : M (option User) :=
  port (DbGetUserById id) (λ w, (Ok (find (has_id id) (users w)), w)).

(** Modelled from the spec: [createUser] of the persistence port (§6); the
    record is stored as given under a fresh identifier and returned. *)
Definition db_createUser (data : UserFields) : M User :=
  port (DbCreateUser data)
    (λ w, let u := {| _id := fresh_id "u" (next_id w); fields := data |} in
          (Ok u, set_next_id (N.succ (next_id w)) (set_users (users w ++ [u]) w))).

(** Modelled from the spec: [updateUserAttributes] of the persistence port
    (§6); the attributes present in the patch overwrite those of the user
    with that identifier, an unknown identifier changes nothing. *)
Definition db_updateUserAttributes (id : string) (p : UserPatch) : M unit :=
  port (DbUpdateUserAttributes id p)
    (λ w, (Ok tt, set_users (update_first (has_id id) (apply_patch p) (users w)) w)).

Definition session_of (uid did : string) (s : Session) : bool :=
  String.eqb (user_id s) uid && String.eqb (device_id s) did.

Definition has_session_id (sid : string) (s : Session) : bool :=
  String.eqb (session_id s) sid.

Definition set_expires (t : Z) (s : Session) : Session :=
  {| session_id := session_id s; user_id := user_id s;
     device_id := device_id s; expires := t |}.

(** Modelled from the spec: [getActiveSessionByDeviceId] of the persistence
    port (§4.3, §6); the session of that user on that device that has not
    expired, [null] when there is none. *)
Definition db_getActiveSessionByDeviceId (uid did : string) : M (option Session) :=
  port (DbGetActiveSessionByDeviceId uid did)
    (λ w, (Ok (find (λ s, session_of uid did s && (now w <? expires s)%Z) (sessions w)), w)).

(** Modelled from the spec: [updateSessionExpiry(session_id, new_ttl)] of the
    persistence port (§4.3, §6, §9: renewal extends from now); the session
    keeps its identifier and expires [new_ttl] from now. *)
Definition db_updateSessionExpiry (sid : string) (ttl : Z) : M Session :=
  port (DbUpdateSessionExpiry sid ttl)
    (λ w, match find (has_session_id sid) (sessions w) with
          | Some s =>
              (Ok (set_expires (now w + ttl) s),
               set_sessions (update_first (has_session_id sid) (set_expires (now w + ttl)) (sessions w)) w)
          | None => (Throw "Session not found", w)
          end).

(** Modelled from the spec: [createSession] of the persistence port (§4.3,
    §6); a new session under a fresh identifier, expiring [ttl] from now. *)
Definition db_createSession (uid did : string) (ttl : Z) : M Session :=
  port (DbCreateSession uid did ttl)
    (λ w, let s := {| session_id := fresh_id "s" (next_id w); user_id := uid;
                      device_id := did; expires := now w + ttl |} in
          (Ok s, set_next_id (N.succ (next_id w)) (set_sessions (sessions w ++ [s]) w))).

(** Modelled from the spec: [destroySession] of the persistence port (§6). *)
Definition db_destroySession (sid : string) : M unit :=
  port (DbDestroySession sid)
    (λ w, (Ok tt, set_sessions (List.filter (λ s, negb (has_session_id sid s)) (sessions w)) w)).

(** Modelled from the spec: [validateSession] of the persistence port (§4.3);
    the owner of the session when it exists and has not expired, [null]
    otherwise. *)
Definition db_validateSession (sid : string) : M (option User) :=
  port (DbValidateSession sid)
    (λ w, match find (has_session_id sid) (sessions w) with
          | Some s =>
              if (now w <? expires s)%Z
              then (Ok (find (has_id (user_id s)) (users w)), w)
              else (Ok None, w)
          | None => (Ok None, w)
          end).

(* ===================================================================== *)
(** ** The mongoose model behind [RoleAdapter] *)
(* ===================================================================== *)

Definition has_name (n : string) (r : Role) : bool := String.eqb (role_name r) n.

(** [this.RoleModel.findOne({ name })]: an exact, case-sensitive match. *)
Definition RoleModel_findOne (n : string) : M (option Role) :=
  port (RoleFindOne n) (λ w, (Ok (find (has_name n) (roles w)), w)).

(** [new this.RoleModel(roleData)] followed by [role.save()].  [RoleSchema]
    makes [name] required, which for a string also refuses the empty one,
    and gives [permissions] the empty array. *)
Definition RoleModel_save (data : RoleData) : M Role :=
  port (RoleSave data)
    (λ w, if truthy_string (name data)
          then
            let r := {| role_id := fresh_id "r" (next_id w);
                        role_name := default "" (name data);
                        role_description := description data;
                        role_permissions := [] |} in
            (Ok r, set_next_id (N.succ (next_id w)) (set_roles (roles w ++ [r]) w))
          else
            (Throw "auth_roles validation failed: name: Path `name` is required.", w)).

(* ===================================================================== *)
(** ** The Redis client *)
(* ===================================================================== *)

(** One command sent through the connected client. *)
Definition command {A} (c : call)
    (op : gmap string (json * Z) → World → Result A * World) : M A :=
  λ w, let w := record c w in
       match redis_fault w, redisClient w with
       | Some e, _ => (Throw e, w)
       | None, Some keys => op keys w
       | None, None => (Throw "The client is closed", w)
       end.

(** [redisClient.get(key)]: the document under [key] unless it has expired. *)
Definition redis_get (key : string) : M (option json) :=
  command (RedisGet key)
    (λ keys w, match keys !! key with
               | Some (v, deadline) =>
                   if (now w <? deadline)%Z then (Ok (Some v), w) else (Ok None, w)
               | None => (Ok None, w)
               end).

(** [redisClient.set(key, value, { EX: seconds })]: the server refuses an
    expiry that is not positive. *)
Definition redis_set (key : string) (value : json) (seconds : Z) : M unit :=
  command (RedisSet key value seconds)
    (λ keys w, if (0 <? seconds)%Z
               then (Ok tt, set_redisClient (Some (<[key := (value, now w + seconds * 1000)]> keys)) w)
               else (Throw "ERR invalid expire time in 'set' command", w)).

(** [redisClient.del(key)] *)
Definition redis_del (key : string) : M unit :=
  command (RedisDel key)
    (λ keys w, (Ok tt, set_redisClient (Some (delete key keys)) w)).

(* ===================================================================== *)
(** ** src/databases/redis.ts *)
(* ===================================================================== *)

(** [privateEnv.USE_REDIS] *)
Definition privateEnv_USE_REDIS : M bool := λ w, (Ok (USE_REDIS w), w).

(** The two directions of [JSON.stringify(value)] and
    [JSON.parse(value) as T] for the type [T] a caller caches. *)
Class Cacheable (T : Type) : Type := {
  JSON_stringify : T → json;
  JSON_parse_as : json → T
}.

Definition field {A} (k : string) (enc : A → json) (o : option A) : list (string * json) :=
  match o with
  | Some a => [(k, enc a)]
  | None => []
  end.

(** [Date.prototype.toJSON]: a [Date] is written as its ISO string; a value
    that already is that string is written as it is. *)
Definition Date_toJSON (d : DateValue) : json := JIso (instant d).

(** An absent attribute is left out of the document, as [JSON.stringify]
    does with [undefined]. *)
Definition User_to_json (u : User) : json :=
  JObj (("_id", JStr (_id u))
        :: field "email" JStr (email u)
        ++ field "password" JStr (password u)
        ++ field "username" JStr (username u)
        ++ field "role" JStr (role u)
        ++ field "lastAuthMethod" JStr (lastAuthMethod u)
        ++ field "isRegistered" JBool (isRegistered u)
        ++ field "failedAttempts" JNum (failedAttempts u)
        ++ field "lockoutUntil" Date_toJSON (lockoutUntil u)).

Definition get_string (k : string) (j : json) : option string :=
  match json_get k j with
  | Some (JStr s) => Some s
  | _ => None
  end.

Definition get_bool (k : string) (j : json) : option bool :=
  match json_get k j with
  | Some (JBool b) => Some b
  | _ => None
  end.

Definition get_number (k : string) (j : json) : option Z :=
  match json_get k j with
  | Some (JNum n) => Some n
  | _ => None
  end.

(** A date attribute of a parsed document: [JSON.parse] revives nothing, the
    attribute is the ISO string that was written.  Anything else found
    there, which this program never writes, is not read as a date. *)
Definition get_date (k : string) (j : json) : option DateValue :=
  match json_get k j with
  | Some (JIso t) => Some (IsoString t)
  | _ => None
  end.

(** A parsed document read at type [User]: the cast is unchecked, whatever
    the document lacks is [undefined]. *)
Definition User_of_json (j : json) : User :=
  {| _id := default "" (get_string "_id" j);
     fields :=
       {| email := get_string "email" j;
          password := get_string "password" j;
          username := get_string "username" j;
          role := get_string "role" j;
          lastAuthMethod := get_string "lastAuthMethod" j;
          isRegistered := get_bool "isRegistered" j;
          failedAttempts := get_number "failedAttempts" j;
          lockoutUntil := get_date "lockoutUntil" j |} |}.

#[export] Instance User_cacheable : Cacheable User :=
  {| JSON_stringify := User_to_json; JSON_parse_as := User_of_json |}.

(** What a trip through JSON leaves of a date: its ISO string. *)
Definition asString (d : DateValue) : DateValue := IsoString (instant d).

(** The user with every date replaced by its ISO string, all other
    attributes as they are. *)
Definition JSON_copy (u : User) : User :=
  {| _id := _id u;
     fields :=
       {| email := email u; password := password u; username := username u;
          role := role u; lastAuthMethod := lastAuthMethod u;
          isRegistered := isRegistered u; failedAttempts := failedAttempts u;
          lockoutUntil := option_map asString (lockoutUntil u) |} |}.

(** The user holds a [Date] object. *)
Definition holdsDate (u : User) : Prop :=
  ∃ t, lockoutUntil u = Some (DateObject t).

(** [getCache<T>(key)].  A parsed document that is falsy is handed back as
    [null]: no caller tells the two apart. *)
Definition getCache {T} `{Cacheable T} (key : string) : M (option T) :=
  λ w, match redisClient w with
       | None => ret None w
       | Some _ =>
           try_catch
             (value <- redis_get key ;;
              ret (match value with
                   | Some v => if json_truthy v then Some (JSON_parse_as v) else None
                   | None => None
                   end))
             (λ _, ret None) w
       end.

(** [setCache<T>(key, value, expirationInSeconds = 3600)] *)
Definition setCache {T} `{Cacheable T} (key : string) (value : T)
    (expirationInSeconds : option Z) : M unit :=
  let expirationInSeconds := default 3600 expirationInSeconds in
  λ w, match redisClient w with
       | None => ret tt w
       | Some _ =>
           try_catch
             (redis_set key (JSON_stringify value) expirationInSeconds)
             (λ _, ret tt) w
       end.

(** [clearCache(key)] *)
Definition clearCache (key : string) : M unit :=
  λ w, match redisClient w with
       | None => ret tt w
       | Some _ => try_catch (redis_del key) (λ _, ret tt) w
       end.

Definition getCachedSession (sessionId : string) : M (option User) :=
  getCache ("session:" +:+ sessionId).

Definition setCachedSession (sessionId : string) (user : User)
    (expirationInSeconds : option Z) : M unit :=
  setCache ("session:" +:+ sessionId) user (Some (default 3600 expirationInSeconds)).

Definition clearCachedSession (sessionId : string) : M unit :=
  clearCache ("session:" +:+ sessionId).

(** [initializeRedis()].  [server] is what [createClient(...).connect()]
    yields: the key space of the server reached, or the reason the connection
    failed. *)
Definition initializeRedis (server : Result (gmap string (json * Z))) : M unit :=
  use_redis <- privateEnv_USE_REDIS ;;
  if negb use_redis then ret tt
  else
    λ w, match server with
         | Ok keys => (Ok tt, set_redisClient (Some keys) w)
         | Throw _ => (Ok tt, set_redisClient None w)
         end.

(** The document a [GET key] would be answered with in world [w], if any. *)
Definition live (key : string) (w : World) : option json :=
  match redisClient w with
  | Some keys =>
      match keys !! key with
      | Some (v, deadline) => if (now w <? deadline)%Z then Some v else None
      | None => None
      end
  | None => None
  end.

(** [isRedisEnabled()] *)
Definition isRedisEnabled (w : World) : bool := bool_decide (is_Some (redisClient w)).

(* ===================================================================== *)
(** ** src/auth/index.ts *)
(* ===================================================================== *)

(** The argon2 module the methods import: [hash] and [verify], either of
    which may reject. *)
Record Argon2 : Type := {
  hash : string → Result string;
  verify : string → string → Result bool
}.

Section Auth.

Context (argon2 : Argon2).

Definition argon2_hash (plain : string) : M string :=
  λ w, (hash argon2 plain, record (Argon2Hash plain) w).

Definition argon2_verify (digest plain : string) : M bool :=
  λ w, (verify argon2 digest plain, record (Argon2Verify digest plain) w).

(** [Auth.createUser] *)
Definition createUser (userData : UserFields) : M User :=
  try_catch
    (hashedPassword <-
       (if truthy_string (password userData)
        then h <- argon2_hash (default "" (password userData)) ;; ret (Some h)
        else ret None) ;;
     user <- db_createUser
               {| email := email userData;
                  password := hashedPassword;
                  username := username userData;
                  role := role userData;
                  lastAuthMethod := lastAuthMethod userData;
                  isRegistered := isRegistered userData;
                  failedAttempts := Some 0;
                  lockoutUntil := None |} ;;
     if negb (truthy_string (Some (_id user)))
     then throw "User creation failed: No user ID returned"
     else ret user)
    (λ err, throw ("Failed to create user: " +:+ err)).

(** [Auth.createSession] *)
Definition createSession (user_id device_id : string)
    (expires : option Z) (isExtended : option bool) : M Session :=
  let expires := default (60 * 60 * 1000) expires in
  let isExtended := default false isExtended in
  if negb (truthy_string (Some user_id)) || negb (truthy_string (Some device_id))
  then throw "user_id and device_id are required to create a session"
  else
    existingSession <- db_getActiveSessionByDeviceId user_id device_id ;;
    match existingSession with
    | Some existingSession =>
        updatedSession <- db_updateSessionExpiry (session_id existingSession)
                            (if isExtended then expires * 2 else expires) ;;
        ret updatedSession
    | None =>
        let expires := if isExtended then expires * 2 else expires in
        session <- db_createSession user_id device_id expires ;;
        ret session
    end.

(** [Auth.destroySession] *)
Definition destroySession (session_id : string) : M unit :=
  try_catch
    (db_destroySession session_id ;;
     use_redis <- privateEnv_USE_REDIS ;;
     if use_redis then clearCachedSession session_id else ret tt)
    (λ err, throw ("Failed to destroy session: " +:+ err)).

(** [Auth.logOut] *)
Definition logOut (session_id : string) : M unit :=
  try_catch
    (db_destroySession session_id)
    (λ err, throw ("Failed to log out: " +:+ err)).

(** [Auth.login] *)
Definition login (email password : string) : M (option User) :=
  user <- db_getUserByEmail email ;;
  match user with
  | None => ret None
  | Some user =>
      if negb (truthy_string (Types.password user)) then ret None
      else
        today <- Date_now ;;
        if match lockoutUntil user with
           | Some until => (today <? instant until)%Z
           | None => false
           end
        then throw "Account is temporarily locked. Please try again later."
        else
          try_catch
            (valid <- argon2_verify (default "" (Types.password user)) password ;;
             if (valid : bool) then
               db_updateUserAttributes (_id user)
                 {| patch_failedAttempts := Some 0; patch_lockoutUntil := Some None |} ;;
               ret (Some user)
             else
               let failedAttempts := or_zero (failedAttempts user) + 1 in
               if (5 <=? failedAttempts)%Z then
                 today <- Date_now ;;
                 let lockoutUntil := today + 30 * 60 * 1000 in
                 db_updateUserAttributes (_id user)
                   {| patch_failedAttempts := Some failedAttempts;
                      patch_lockoutUntil := Some (Some (DateObject lockoutUntil)) |} ;;
                 throw "Account is temporarily locked due to too many failed attempts. Please try again later."
               else
                 db_updateUserAttributes (_id user)
                   {| patch_failedAttempts := Some failedAttempts;
                      patch_lockoutUntil := None |} ;;
                 throw "Invalid credentials. Please try again.")
            (λ err, throw err)
  end.

(** [Auth.validateSession] *)
Definition validateSession (session_id : string) : M (option User) :=
  try_catch
    (if negb (truthy_string (Some session_id))
     then throw "Session ID is undefined"
     else
       use_redis <- privateEnv_USE_REDIS ;;
       cached <- (if use_redis then getCachedSession session_id else ret None) ;;
       match cached with
       | Some user => ret (Some user)
       | None =>
           user <- db_validateSession session_id ;;
           match user with
           | Some user =>
               (if use_redis then setCachedSession session_id user None else ret tt) ;;
               ret (Some user)
           | None => ret None
           end
       end)
    (λ err, throw ("Failed to validate session: " +:+ err)).

(** *** Vocabulary for the lockout policy *)

Definition verifies (u : User) (plain : string) : Result bool :=
  verify argon2 (default "" (password u)) plain.

(** The account is inside its lockout window at instant [t]. *)
Definition lockedAt (t : Z) (u : User) : Prop :=
  ∃ until, lockoutUntil u = Some until ∧ t < instant until.

Definition unlockedAt (t : Z) (u : User) : Prop :=
  ∀ until, lockoutUntil u = Some until → instant until ≤ t.

Definition resetPatch : UserPatch :=
  {| patch_failedAttempts := Some 0; patch_lockoutUntil := Some None |}.

Definition countPatch (n : Z) : UserPatch :=
  {| patch_failedAttempts := Some n; patch_lockoutUntil := None |}.

Definition lockPatch (n until : Z) : UserPatch :=
  {| patch_failedAttempts := Some n; patch_lockoutUntil := Some (Some (DateObject until)) |}.

(** The world after [login] verified the password of [u] and wrote [p]. *)
Definition afterAttempt (e plain : string) (u : User) (p : UserPatch) (w : World) : World :=
  set_users (update_first (has_id (_id u)) (apply_patch p) (users w))
    (record (DbUpdateUserAttributes (_id u) p)
       (record (Argon2Verify (default "" (password u)) plain)
          (record (DbGetUserByEmail e) w))).

(** What the lockout policy needs to know about the account behind [e]:
    the store is reachable, identifiers are unique, and the account has a
    password, a counter at [n] and no lockout date. *)
Definition counting (e : string) (u : User) (n : Z) (w : World) : Prop :=
  db_fault w = None
  ∧ List.NoDup (map _id (users w))
  ∧ ∃ u', find (has_email e) (users w) = Some u'
          ∧ password u' = password u
          ∧ or_zero (failedAttempts u') = n
          ∧ lockoutUntil u' = None.

(** The clock reaches [fst a], then [login email (snd a)] runs; its outcome
    is dropped and the world it leaves is kept. *)
Definition attemptAt (email : string) (a : Z * string) (w : World) : World :=
  snd (login email (snd a) (set_now (fst a) w)).

Definition attempts (email : string) (l : list (Z * string)) (w : World) : World :=
  fold_left (λ w a, attemptAt email a w) l w.

End Auth.

(* ===================================================================== *)
(** ** src/auth/mongoDBAuth/roleAdapter.ts: [RoleAdapter] *)
(* ===================================================================== *)

(** [for (const x of l) { await body(x) }] *)
Fixpoint for_of {A} (l : list A) (body : A → M unit) : M unit :=
  match l with
  | [] => ret tt
  | x :: l => body x ;; for_of l body
  end.

Module RoleAdapter.

(** [RoleAdapter.getRoleByName] *)
Definition getRoleByName (name : string) : M (option Role) :=
  try_catch (RoleModel_findOne name) (λ error, throw error).

(** [RoleAdapter.createRole] *)
Definition createRole (roleData : RoleData) (currentUserId : string) : M Role :=
  try_catch (RoleModel_save roleData) (λ error, throw error).

Definition defaultRoles : list RoleData :=
  [ {| name := Some "admin"; description := Some "Administrator with all permissions" |};
    {| name := Some "developer"; description := Some "Developer with elevated permissions" |};
    {| name := Some "editor"; description := Some "Content editor" |};
    {| name := Some "user"; description := Some "Regular user with basic permissions" |} ].

(** The body of the loop of [initializeDefaultRoles]. *)
Definition seedRole (role : RoleData) : M unit :=
  existingRole <- getRoleByName (default "" (name role)) ;;
  match existingRole with
  | None => createRole role "system" ;; ret tt
  | Some _ => ret tt
  end.

(** [RoleAdapter.initializeDefaultRoles] *)
Definition initializeDefaultRoles : M unit :=
  try_catch (for_of defaultRoles seedRole) (λ error, throw error).

(** The document [createRole] stores for [role] in world [w]. *)
Definition seeded (n : string) (role : RoleData) (w : World) : Role :=
  {| role_id := fresh_id "r" (next_id w); role_name := n;
     role_description := description role; role_permissions := [] |}.

(** A role of that name is stored. *)
Definition present (w : World) (role : RoleData) : Prop :=
  ∃ n r, name role = Some n ∧ find (has_name n) (roles w) = Some r.

End RoleAdapter.

(* ===================================================================== *)
(** ** Roles, permissions and [sanitizePermissions] *)
(* ===================================================================== *)

(** The own properties of a plain JavaScript object with string keys, in
    the order [Object.keys] lists them.  What the object inherits from
    [Object.prototype] is not part of it: a read that may reach the
    prototype goes through [Prototype] below. *)
Module Obj.

Definition t (V : Type) : Type := list (string * V).

(** The own property [k] of [o], [None] when [o] has none of that name. *)
Fixpoint get {V} (k : string) (o : t V) : option V :=
  match o with
  | [] => None
  | (k', v) :: o => if String.eqb k' k then Some v else get k o
  end.

(** [{ ...o, [k]: v }]: an existing key keeps its place, a new one goes
    last. *)
Fixpoint define {V} (k : string) (v : V) (o : t V) : t V :=
  match o with
  | [] => [(k, v)]
  | (k', v') :: o => if String.eqb k' k then (k', v) :: o else (k', v') :: define k v o
  end.

(** [o[k] = v].  On an object without an own property [__proto__],
    assigning to [__proto__] runs the setter plain objects inherit: it may
    swap the prototype, it adds no own property.  Every other assignment
    defines the key. *)
Definition set {V} (k : string) (v : V) (o : t V) : t V :=
  if String.eqb k "__proto__"
  then match get k o with
       | Some _ => define k v o
       | None => o
       end
  else define k v o.

(** [delete o[k]] *)
Fixpoint delete {V} (k : string) (o : t V) : t V :=
  match o with
  | [] => []
  | (k', v') :: o => if String.eqb k' k then o else (k', v') :: delete k o
  end.

(** [Object.keys(o)] *)
Definition keys {V} (o : t V) : list string := map fst o.

End Obj.

Definition adminRole : string := "admin".

Definition flexibleRoles : list string := ["developer"; "editor"; "user"].

Definition roleNames : list string := adminRole :: flexibleRoles.

Definition permissions : list string := ["create"; "read"; "write"; "delete"].

(** [Permissions]: role name to permission name to boolean. *)
Definition Permissions : Type := Obj.t (Obj.t bool).

(** [defaultPermissions], by the two nested [reduce]s of the source. *)
Definition defaultPermissions : Permissions :=
  fold_left
    (λ acc role,
       Obj.define role
         (fold_left
            (λ acc permission,
               if String.eqb role "admin" || String.eqb role "developer"
               then Obj.define permission true acc
               else if String.eqb role "editor"
               then Obj.define permission true acc
               else if String.eqb role "user"
               then Obj.define "write" false (Obj.define permission true acc)
               else Obj.define permission false acc)
            permissions [])
         acc)
    roleNames [].

(** What the engine's [Object.prototype] adds to the reads of
    [sanitizePermissions].  [defaultPermissions] is a plain object: a role
    name [r] it does not define itself may still be a property it inherits
    ([constructor], [toString], [__proto__], ...).  [inherited r = Some cmp]
    says so, and [cmp p v] is then the outcome of [v != defaultPermissions[r][p]]
    on that inherited value, which may throw; [inherited r = None] says that
    [defaultPermissions[r]] is [undefined]. *)
Definition Prototype : Type := string → option (string → bool → Result bool).

(** [a != b] where [b] may be [undefined]: a boolean never equals
    [undefined]. *)
Definition loose_neq (a : bool) (b : option bool) : bool :=
  match b with
  | Some b => negb (Bool.eqb a b)
  | None => true
  end.

Section Sanitize.

Context (inherited : Prototype).

(** [permissions[r][p] != defaultPermissions[r][p]] for the value [v] of
    [permissions[r][p]].  Under a role of the default matrix, a permission
    that role does not define is [undefined] or a function that role
    inherits, neither of which equals a boolean.  Reading a property of a
    default role that is [undefined] throws. *)
Definition overridden (r p : string) (v : bool) : Result bool :=
  match Obj.get r defaultPermissions with
  | Some defaults => Ok (loose_neq v (Obj.get p defaults))
  | None =>
      match inherited r with
      | Some cmp => cmp p v
      | None => Throw ("Cannot read properties of undefined (reading '" +:+ p +:+ "')")
      end
  end.

(** The inner [reduce] of [sanitizePermissions], over the keys of
    [permissions[r]]. *)
Fixpoint sanitizeRole (r : string) (entries : Obj.t bool) (acc : Obj.t bool)
    : Result (Obj.t bool) :=
  match entries with
  | [] => Ok acc
  | (p, v) :: entries =>
      match overridden r p v with
      | Throw e => Throw e
      | Ok b => sanitizeRole r entries (if b then Obj.set p v acc else acc)
      end
  end.

(** The outer [reduce] of [sanitizePermissions], over the keys of
    [permissions].  After [acc[r] = kept] the role is an own property of
    [acc], which is what [acc[r]] then reads; the one exception is a role
    named [__proto__], where [acc[r]] reads the prototype and [delete] finds
    nothing to remove: [acc] holds no such key either way. *)
Fixpoint sanitizeRoles (entries : Permissions) (acc : Permissions) : Result Permissions :=
  match entries with
  | [] => Ok acc
  | (r, perms) :: entries =>
      match sanitizeRole r perms [] with
      | Throw e => Throw e
      | Ok kept =>
          let acc := Obj.set r kept acc in
          let acc :=
            if (length (Obj.keys (default [] (Obj.get r acc))) =? 0)%nat
            then Obj.delete r acc
            else acc in
          sanitizeRoles entries acc
      end
  end.

(** [sanitizePermissions]; [None] is [undefined]. *)
Definition sanitizePermissions (permissions : Permissions) : Result (option Permissions) :=
  match sanitizeRoles permissions [] with
  | Throw e => Throw e
  | Ok res => if (length (Obj.keys res) =? 0)%nat then Ok None else Ok (Some res)
  end.

End Sanitize.

(** [permissions[r][p] = v] on a copy of the matrix. *)
Definition setPermission (r p : string) (v : bool) (m : Permissions) : Permissions :=
  Obj.set r (Obj.set p v (default [] (Obj.get r m))) m.

(** Every entry of [m] is an entry of the default matrix. *)
Definition matchesDefault (m : Permissions) : Prop :=
  ∀ r perms p v,
    In (r, perms) m → In (p, v) perms →
    ∃ defaults, Obj.get r defaultPermissions = Some defaults
                ∧ Obj.get p defaults = Some v.

(** The matrix [sanitizePermissions] is meant to compute: for each role the
    entries that differ from the default, roles without any left out.  An
    entry named [__proto__] is never part of it. *)
Definition differs (r : string) (e : string * bool) : bool :=
  negb (String.eqb (fst e) "__proto__")
  && loose_neq (snd e) (Obj.get (fst e) (default [] (Obj.get r defaultPermissions))).

Definition minimalDiff (m : Permissions) : Permissions :=
  List.filter (λ e, negb (length (snd e) =? 0)%nat)
    (map (λ e, (fst e, List.filter (differs (fst e)) (snd e))) m).

(** Every role of [m] that has permissions is a role of the default matrix. *)
Definition knownRoles (m : Permissions) : Prop :=
  ∀ r perms, In (r, perms) m → perms ≠ [] → is_Some (Obj.get r defaultPermissions).

(** No key occurs twice, as in every JavaScript object. *)
Definition wellKeyed (m : Permissions) : Prop :=
  List.NoDup (Obj.keys m) ∧ ∀ r perms, In (r, perms) m → List.NoDup (Obj.keys perms).

(* ===================================================================== *)
(** ** src/auth/index.ts: lookups *)
(* ===================================================================== *)

(** The argument of [checkUser]: [{ user_id?: string; email?: string }]. *)
Record UserQuery : Type := {
  query_user_id : option string;
  query_email : option string
}.

(** [Auth.checkUser] *)
Definition checkUser (query : UserQuery) : M (option User) :=
  try_catch
    (if truthy_string (query_email query)
     then db_getUserByEmail (default "" (query_email query))
     else if truthy_string (query_user_id query)
     then db_getUserById (default "" (query_user_id query))
     else ret None)
    (λ err, throw ("Failed to check user: " +:+ err)).


(** What the persistence port answers [validateSession(sid)] with in world
    [w]: the owner of the session, if it exists and has not expired. *)
Definition sessionOwner (sid : string) (w : World) : option User :=
  match find (has_session_id sid) (sessions w) with
  | Some s =>
      if (now w <? expires s)%Z then find (has_id (user_id s)) (users w) else None
  | None => None
  end.

(** What a cache operation may change between [w] and [w']: the client and
    the trace, nothing else. *)
Definition cacheOnly (w w' : World) : Prop :=
  users w' = users w ∧ sessions w' = sessions w ∧ roles w' = roles w
  ∧ next_id w' = next_id w ∧ db_fault w' = db_fault w
  ∧ USE_REDIS w' = USE_REDIS w ∧ redis_fault w' = redis_fault w ∧ now w' = now w.

(** The cache cannot answer for [sid]: it is switched off, it holds no live
    entry, or its commands fail. *)
Definition cacheMiss (sid : string) (w : World) : Prop :=
  USE_REDIS w = false
  ∨ live ("session:" +:+ sid) w = None
  ∨ is_Some (redis_fault w).

(* ===================================================================== *)
(** ** src/utils/utils.ts: file names *)
(* ===================================================================== *)

Module Utils.

(** A JavaScript string, as the sequence of its UTF-16 code units. *)
Definition jsstring : Type := list N.

(** The class [\s] of a regular expression. *)
Definition is_space (c : N) : bool :=
  ((9 <=? c) && (c <=? 13) || (c =? 32) || (c =? 160) || (c =? 5760)
   || (8192 <=? c) && (c <=? 8202) || (c =? 8232) || (c =? 8233)
   || (c =? 8239) || (c =? 8287) || (c =? 12288) || (c =? 65279))%N.

(** The class [[a-zA-Z0-9_]]. *)
Definition is_word (c : N) : bool :=
  ((97 <=? c) && (c <=? 122) || (65 <=? c) && (c <=? 90)
   || (48 <=? c) && (c <=? 57) || (c =? 95))%N.

(** [str.replace(/\s+/g, '_')]: every maximal run of white space becomes one
    underscore; [in_run] tells that the previous unit was white space. *)
Fixpoint replace_spaces (in_run : bool) (str : jsstring) : jsstring :=
  match str with
  | [] => []
  | c :: str =>
      if is_space c
      then if in_run then replace_spaces true str else 95%N :: replace_spaces true str
      else c :: replace_spaces false str
  end.

(** [sanitize(str)] *)
Definition sanitize (str : jsstring) : jsstring :=
  List.filter is_word (replace_spaces false str).

(** [s.lastIndexOf(c)]; [None] is -1. *)
Fixpoint lastIndexOf (c : N) (s : jsstring) : option nat :=
  match s with
  | [] => None
  | x :: s =>
      match lastIndexOf c s with
      | Some i => Some (S i)
      | None => if (x =? c)%N then Some 0%nat else None
      end
  end.

(** [removeExtension(fileName)]: the pair of [name] and [ext]. *)
Definition removeExtension (fileName : jsstring) : jsstring * jsstring :=
  match lastIndexOf 46 fileName with
  | None => (fileName, [])
  | Some lastDotIndex =>
      (firstn lastDotIndex fileName, skipn (lastDotIndex + 1) fileName)
  end.

End Utils.

(* ===================================================================== *)
(** ** Sample data *)
(* ===================================================================== *)

(** A stand-in for argon2 that is easy to compute with: the digest is the
    password behind a fixed prefix. *)
Definition toy_argon2 : Argon2 :=
  {| hash := λ plain, Ok ("$argon2id$" +:+ plain);
     verify := λ digest plain, Ok (String.eqb digest ("$argon2id$" +:+ plain)) |}.

Definition alice : User :=
  {| _id := "u0";
     fields :=
       {| email := Some "alice@example.com";
          password := Some "$argon2id$correct horse";
          username := Some "alice";
          role := Some "editor";
          lastAuthMethod := Some "password";
          isRegistered := Some true;
          failedAttempts := Some 0;
          lockoutUntil := None |} |}.

(** An account whose lockout, at instant 500, has elapsed. *)
Definition bob : User :=
  {| _id := "u1";
     fields :=
       {| email := Some "bob@example.com";
          password := Some "$argon2id$hunter2";
          username := None;
          role := Some "user";
          lastAuthMethod := None;
          isRegistered := None;
          failedAttempts := Some 5;
          lockoutUntil := Some (DateObject 500) |} |}.

(** A registration that tries to start with a counter and a lockout. *)
Definition carol : UserFields :=
  {| email := Some "carol@example.com";
     password := Some "s3cret";
     username := Some "carol";
     role := Some "user";
     lastAuthMethod := None;
     isRegistered := None;
     failedAttempts := Some 7;
     lockoutUntil := Some (DateObject 99) |}.

(** Two users, no session, no role, a connected empty cache, the clock at
    one second. *)
Definition world0 : World :=
  {| users := [alice; bob]; sessions := []; roles := []; next_id := 2;
     db_fault := None; USE_REDIS := true; redisClient := Some ∅;
     redis_fault := None; now := 1000; trace := [] |}.

(** [world0] with a role whose name differs from admin by its capital. *)
Definition world0_Admin : World :=
  set_roles [ {| role_id := "r0"; role_name := "Admin"; role_description := None;
                 role_permissions := [] |} ] world0.

(** Five attempts, a second apart, none with alice's password. *)
Definition fiveWrong : list (Z * string) :=
  [(1000, "a"); (2000, "b"); (3000, "c"); (4000, "d"); (5000, "e")].

(** [world0] after alice opened a session of half a second on device A. *)
Definition world1 : World :=
  snd (createSession "u0" "deviceA" (Some 500) None world0).

(** [world1] after that session was validated, hence cached for an hour,
    and the clock moved one second on: the session has expired. *)
Definition world2 : World :=
  set_now 2000 (snd (validateSession "s2" world1)).

(** [world0] after bob opened a session of half a second on device B. *)
Definition world4 : World :=
  snd (createSession "u1" "deviceB" (Some 500) None world0).

(** [world2] with the store out of reach. *)
Definition world3 : World :=
  {| users := users world2; sessions := sessions world2; roles := roles world2;
     next_id := next_id world2; db_fault := Some "connection lost";
     USE_REDIS := true; redisClient := redisClient world2;
     redis_fault := None; now := now world2; trace := [] |}.

(** An argon2 that cannot work: every call fails. *)
Definition failing_argon2 : Argon2 :=
  {| hash := λ _, Throw "out of memory";
     verify := λ _ _, Throw "out of memory" |}.

(** The first four of [fiveWrong]. *)
Definition fourWrong : list (Z * string) :=
  [(1000, "a"); (2000, "b"); (3000, "c"); (4000, "d")].


(** A stand-in for the prototype of plain objects: the property names they
    inherit, each with a value that no boolean equals. *)
Definition Object_prototype : Prototype :=
  λ r, if existsb (String.eqb r)
            ["constructor"; "__defineGetter__"; "__defineSetter__";
             "hasOwnProperty"; "__lookupGetter__"; "__lookupSetter__";
             "isPrototypeOf"; "propertyIsEnumerable"; "toString"; "valueOf";
             "__proto__"; "toLocaleString"]
       then Some (λ _ _, Ok true)
       else None.

(** The UTF-16 code units of the file name a.tar.gz *)
Definition archive : Utils.jsstring := [97; 46; 116; 97; 114; 46; 103; 122]%N.

(* ===================================================================== *)
(** * Properties *)
(* ===================================================================== *)

(** ** Lists of documents *)

Lemma has_id_refl (u : User) : has_id (_id u) u = true.
Proof. apply String.eqb_refl. Qed.

Lemma has_email_apply_patch (e : string) (p : UserPatch) (u : User) :
  has_email e (apply_patch p u) = has_email e u.
Proof. reflexivity. Qed.

Lemma update_first_ids {A} (key : A → string) (p : A → bool) (f : A → A) (l : list A) :
  (∀ x, key (f x) = key x) →
  map key (update_first p f l) = map key l.
Proof.
  intros Hkey. induction l as [|x l IH]; simpl; [reflexivity|].
  destruct (p x); simpl; [by rewrite Hkey | by rewrite IH].
Qed.

(** With unique identifiers, patching the user an email lookup returned is
    seen by the next lookup under the same email. *)
Lemma find_email_update (e : string) (p : UserPatch) (us : list User) (u : User) :
  List.NoDup (map _id us) →
  find (has_email e) us = Some u →
  find (has_email e) (update_first (has_id (_id u)) (apply_patch p) us)
  = Some (apply_patch p u).
Proof.
  induction us as [|x us IH]; simpl; intros Hnd Hfind; [discriminate|].
  inversion Hnd as [|? ? Hnotin Hnd']; subst.
  destruct (has_email e x) eqn:Hx.
  - injection Hfind as ->. rewrite has_id_refl. simpl.
    by rewrite has_email_apply_patch, Hx.
  - destruct (has_id (_id u) x) eqn:Hid.
    + exfalso. apply Hnotin. apply String.eqb_eq in Hid. rewrite Hid.
      apply in_map. by apply find_some in Hfind as [? _].
    + simpl. rewrite Hx. by apply IH.
Qed.

Lemma find_id_update (p : UserPatch) (us : list User) (u : User) :
  In u us →
  ∃ u0, find (has_id (_id u)) us = Some u0 ∧
        find (has_id (_id u)) (update_first (has_id (_id u)) (apply_patch p) us)
        = Some (apply_patch p u0).
Proof.
  induction us as [|x us IH]; simpl; intros Hin; [contradiction|].
  destruct (has_id (_id u) x) eqn:Hid.
  - exists x. split; [reflexivity|]. simpl.
    change (has_id (_id u) (apply_patch p x)) with (has_id (_id u) x).
    by rewrite Hid.
  - destruct Hin as [->|Hin]; [by rewrite has_id_refl in Hid|].
    destruct (IH Hin) as (u0 & H1 & H2). exists u0. simpl. by rewrite Hid.
Qed.

(** ** Running the port *)

Lemma port_up {A} (c : call) (op : World → Result A * World) (w : World) :
  db_fault w = None → port c op w = op (record c w).
Proof. intros H. unfold port. simpl. by rewrite H. Qed.

Lemma port_down {A} (c : call) (op : World → Result A * World) (w : World) (e : string) :
  db_fault w = Some e → port c op w = (Throw e, record c w).
Proof. intros H. unfold port. simpl. by rewrite H. Qed.

Section AuthProperties.

Context (argon2 : Argon2).

(** *** [createUser] *)

Lemma createUser_returns (userData : UserFields) (w : World) :
  db_fault w = None →
  (truthy_string (password userData) = true →
   ∃ h, hash argon2 (default "" (password userData)) = Ok h) →
  ∃ u w', createUser argon2 userData w = (Ok u, w').
Proof.
  intros Hdb Hhash.
  unfold createUser, try_catch, bind, argon2_hash, db_createUser, ret.
  destruct (truthy_string (password userData)) eqn:Hpw.
  - destruct (Hhash eq_refl) as [h Hh]. rewrite Hh.
    rewrite port_up by done. simpl. eauto.
  - rewrite port_up by done. simpl. eauto.
Qed.

Lemma createUser_created (userData : UserFields) (w w' : World) (u : User) :
  createUser argon2 userData w = (Ok u, w') →
  failedAttempts u = Some 0
  ∧ lockoutUntil u = None
  ∧ email u = email userData
  ∧ users w' = (users w ++ [u])%list
  ∧ ∃ data, In (DbCreateUser data) (trace w') ∧ failedAttempts data = Some 0.
Proof.
  unfold createUser, try_catch, bind, argon2_hash, db_createUser, ret, throw, port.
  destruct (truthy_string (password userData)).
  - destruct (hash argon2 _) as [h|e]; simpl; [|discriminate].
    destruct (db_fault w); simpl; [discriminate|].
    intros [= <- <-]. simpl. repeat split; try reflexivity.
    eexists. split; [apply in_or_app; right; left; reflexivity|reflexivity].
  - simpl. destruct (db_fault w); simpl; [discriminate|].
    intros [= <- <-]. simpl. repeat split; try reflexivity.
    eexists. split; [apply in_or_app; right; left; reflexivity|reflexivity].
Qed.

(** *** [login], one attempt at a time *)

Lemma login_unknown (e plain : string) (w : World) :
  db_fault w = None →
  find (has_email e) (users w) = None →
  login argon2 e plain w = (Ok None, record (DbGetUserByEmail e) w).
Proof.
  intros Hdb Hfind. unfold login, bind, db_getUserByEmail.
  rewrite port_up by done. simpl. by rewrite Hfind.
Qed.

Lemma login_no_password (e plain : string) (w : World) (u : User) :
  db_fault w = None →
  find (has_email e) (users w) = Some u →
  truthy_string (password u) = false →
  login argon2 e plain w = (Ok None, record (DbGetUserByEmail e) w).
Proof.
  intros Hdb Hfind Hpw. unfold login, bind, db_getUserByEmail.
  rewrite port_up by done. simpl. by rewrite Hfind, Hpw.
Qed.

Lemma login_locked (e plain : string) (w : World) (u : User) :
  db_fault w = None →
  find (has_email e) (users w) = Some u →
  truthy_string (password u) = true →
  lockedAt (now w) u →
  login argon2 e plain w
  = (Throw "Account is temporarily locked. Please try again later.",
     record (DbGetUserByEmail e) w).
Proof.
  intros Hdb Hfind Hpw (until & Hl & Hlt). unfold login, bind, db_getUserByEmail.
  rewrite port_up by done. simpl. rewrite Hfind, Hpw. simpl.
  rewrite Hl. unfold Date_now. simpl.
  destruct (Z.ltb_spec (now w) (instant until)); [reflexivity|lia].
Qed.

(** Up to the call to [verify], for an account that is not locked. *)
Lemma login_unlocked (e plain : string) (w : World) (u : User) :
  db_fault w = None →
  find (has_email e) (users w) = Some u →
  truthy_string (password u) = true →
  unlockedAt (now w) u →
  login argon2 e plain w
  = try_catch
      (valid <- argon2_verify argon2 (default "" (password u)) plain ;;
       if (valid : bool) then
         db_updateUserAttributes (_id u) resetPatch ;; ret (Some u)
       else
         let n := or_zero (failedAttempts u) + 1 in
         if 5 <=? n then
           today <- Date_now ;;
           db_updateUserAttributes (_id u) (lockPatch n (today + 30 * 60 * 1000)) ;;
           throw "Account is temporarily locked due to too many failed attempts. Please try again later."
         else
           db_updateUserAttributes (_id u) (countPatch n) ;;
           throw "Invalid credentials. Please try again.")
      (λ err, throw err) (record (DbGetUserByEmail e) w).
Proof.
  intros Hdb Hfind Hpw Hun. unfold login at 1, bind at 1, db_getUserByEmail.
  rewrite port_up by done. simpl. rewrite Hfind, Hpw. simpl.
  unfold bind at 1, Date_now at 1. simpl.
  destruct (lockoutUntil u) as [until|] eqn:Hl; [|reflexivity].
  specialize (Hun until Hl).
  destruct (Z.ltb_spec (now w) (instant until)); [lia|reflexivity].
Qed.

Lemma login_success (e plain : string) (w : World) (u : User) :
  db_fault w = None →
  find (has_email e) (users w) = Some u →
  truthy_string (password u) = true →
  unlockedAt (now w) u →
  verifies argon2 u plain = Ok true →
  login argon2 e plain w = (Ok (Some u), afterAttempt e plain u resetPatch w).
Proof.
  intros Hdb Hfind Hpw Hun Hv. rewrite (login_unlocked e plain w u) by done.
  unfold try_catch, bind, argon2_verify, db_updateUserAttributes.
  unfold verifies in Hv. rewrite Hv. rewrite port_up by done. reflexivity.
Qed.

Lemma login_wrong_password (e plain : string) (w : World) (u : User) :
  db_fault w = None →
  find (has_email e) (users w) = Some u →
  truthy_string (password u) = true →
  unlockedAt (now w) u →
  verifies argon2 u plain = Ok false →
  or_zero (failedAttempts u) + 1 < 5 →
  login argon2 e plain w
  = (Throw "Invalid credentials. Please try again.",
     afterAttempt e plain u (countPatch (or_zero (failedAttempts u) + 1)) w).
Proof.
  intros Hdb Hfind Hpw Hun Hv Hn. rewrite (login_unlocked e plain w u) by done.
  unfold try_catch, bind, argon2_verify, db_updateUserAttributes.
  unfold verifies in Hv. rewrite Hv. simpl.
  destruct (Z.leb_spec 5 (or_zero (failedAttempts u) + 1)); [lia|].
  rewrite port_up by done. reflexivity.
Qed.

Lemma login_wrong_password_locks (e plain : string) (w : World) (u : User) :
  db_fault w = None →
  find (has_email e) (users w) = Some u →
  truthy_string (password u) = true →
  unlockedAt (now w) u →
  verifies argon2 u plain = Ok false →
  5 ≤ or_zero (failedAttempts u) + 1 →
  login argon2 e plain w
  = (Throw "Account is temporarily locked due to too many failed attempts. Please try again later.",
     afterAttempt e plain u
       (lockPatch (or_zero (failedAttempts u) + 1) (now w + 30 * 60 * 1000)) w).
Proof.
  intros Hdb Hfind Hpw Hun Hv Hn. rewrite (login_unlocked e plain w u) by done.
  unfold try_catch, bind, argon2_verify, db_updateUserAttributes.
  unfold verifies in Hv. rewrite Hv. simpl.
  destruct (Z.leb_spec 5 (or_zero (failedAttempts u) + 1)); [|lia].
  unfold Date_now. simpl. rewrite port_up by done. reflexivity.
Qed.

(** *** Consecutive failures *)

Lemma attempts_cons (e : string) (a : Z * string) (l : list (Z * string)) (w : World) :
  attempts argon2 e (a :: l) w = attempts argon2 e l (attemptAt argon2 e a w).
Proof. reflexivity. Qed.

Lemma attempts_snoc (e : string) (a : Z * string) (l : list (Z * string)) (w : World) :
  attempts argon2 e (l ++ [a]) w = attemptAt argon2 e a (attempts argon2 e l w).
Proof. unfold attempts. by rewrite fold_left_app. Qed.

(** Each failure below the threshold adds one to the counter and nothing
    else. *)
Lemma failures_count (e : string) (u : User) (l : list (Z * string)) :
  truthy_string (password u) = true →
  Forall (λ a, verifies argon2 u (snd a) = Ok false) l →
  ∀ (n : Z) (w : World),
    0 ≤ n →
    n + Z.of_nat (length l) < 5 →
    counting e u n w →
    counting e u (n + Z.of_nat (length l)) (attempts argon2 e l w).
Proof.
  intros Hpw Hl. induction Hl as [|a l Ha Hl IH]; intros n w Hn Hlt Hc.
  - simpl. by rewrite Z.add_0_r.
  - rewrite attempts_cons.
    replace (n + Z.of_nat (length (a :: l))) with ((n + 1) + Z.of_nat (length l))
      in * by (simpl length; lia).
    apply IH; [lia|lia|].
    destruct Hc as (Hdb & Hnd & u' & Hfind & Hp & Hcount & Hlock).
    unfold attemptAt.
    rewrite (login_wrong_password e (snd a) (set_now (fst a) w) u'); try done.
    + unfold counting, afterAttempt. simpl. split; [done|]. split.
      * by rewrite (update_first_ids _id).
      * eexists. split; [by apply find_email_update|].
        simpl. split; [done|]. split; [by rewrite Hcount|done].
    + by rewrite Hp.
    + intros t. simpl. by rewrite Hlock.
    + unfold verifies. rewrite Hp. exact Ha.
    + rewrite Hcount. lia.
Qed.

(** *** The lockout policy *)

(** C1.  While [lockoutUntil] lies in the future, [login] throws the lockout
    error whatever password is given, and the only call it makes is the
    lookup of the user: [verify] is not invoked.  That state is the one five
    consecutive failed logins lead to: the fifth failure throws, leaves the
    counter at 5 and sets [lockoutUntil] to its own instant plus 30 minutes,
    and every attempt before that date is rejected in the same way. *)
Theorem locked_account_is_rejected_without_verify :
  (∀ (e plain : string) (w : World) (u : User),
     db_fault w = None →
     find (has_email e) (users w) = Some u →
     truthy_string (password u) = true →
     lockedAt (now w) u →
     ∃ w', login argon2 e plain w
           = (Throw "Account is temporarily locked. Please try again later.", w')
           ∧ trace w' = trace w ++ [DbGetUserByEmail e]
           ∧ users w' = users w)
  ∧ (∀ (e : string) (w : World) (u : User) (a1 a2 a3 a4 a5 : Z * string),
       db_fault w = None →
       List.NoDup (map _id (users w)) →
       find (has_email e) (users w) = Some u →
       truthy_string (password u) = true →
       or_zero (failedAttempts u) = 0 →
       lockoutUntil u = None →
       Forall (λ a, verifies argon2 u (snd a) = Ok false) [a1; a2; a3; a4; a5] →
       let w4 := attempts argon2 e [a1; a2; a3; a4] w in
       let w5 := attempts argon2 e [a1; a2; a3; a4; a5] w in
       fst (login argon2 e (snd a5) (set_now (fst a5) w4))
       = Throw "Account is temporarily locked due to too many failed attempts. Please try again later."
       ∧ (∃ u5, find (has_email e) (users w5) = Some u5
                ∧ failedAttempts u5 = Some 5
                ∧ lockoutUntil u5 = Some (DateObject (fst a5 + 30 * 60 * 1000)))
       ∧ ∀ (t : Z) (plain : string),
           t < fst a5 + 30 * 60 * 1000 →
           ∃ w6, login argon2 e plain (set_now t w5)
                 = (Throw "Account is temporarily locked. Please try again later.", w6)
                 ∧ trace w6 = trace w5 ++ [DbGetUserByEmail e]).
Proof.
  split.
  - intros e plain w u Hdb Hfind Hpw Hlock. eexists. split.
    + by apply (login_locked e plain w u).
    + by split.
  - intros e w u a1 a2 a3 a4 a5 Hdb Hnd Hfind Hpw Hn Hl Hall w4 w5.
    assert (Hfour : Forall (λ a, verifies argon2 u (snd a) = Ok false) [a1; a2; a3; a4]).
    { apply List.Forall_forall. intros a Ha. rewrite List.Forall_forall in Hall.
      apply Hall. simpl in *. tauto. }
    assert (H5 : verifies argon2 u (snd a5) = Ok false).
    { rewrite List.Forall_forall in Hall. apply Hall. simpl. tauto. }
    assert (Hc : counting e u 0 w).
    { split; [done|]. split; [done|]. exists u. by repeat split. }
    apply (failures_count e u [a1; a2; a3; a4] Hpw Hfour 0 w) in Hc; [|lia|simpl; lia].
    fold w4 in Hc. simpl in Hc.
    destruct Hc as (Hdb4 & Hnd4 & u4 & Hfind4 & Hp4 & Hn4 & Hl4).
    assert (Hstep : login argon2 e (snd a5) (set_now (fst a5) w4)
                    = (Throw "Account is temporarily locked due to too many failed attempts. Please try again later.",
                       afterAttempt e (snd a5) u4 (lockPatch 5 (fst a5 + 30 * 60 * 1000))
                         (set_now (fst a5) w4))).
    { rewrite (login_wrong_password_locks e (snd a5) (set_now (fst a5) w4) u4); try done.
      - by rewrite Hn4.
      - by rewrite Hp4.
      - intros t. simpl. by rewrite Hl4.
      - unfold verifies. by rewrite Hp4.
      - rewrite Hn4. lia. }
    assert (Hw5 : w5 = afterAttempt e (snd a5) u4 (lockPatch 5 (fst a5 + 30 * 60 * 1000))
                         (set_now (fst a5) w4)).
    { unfold w5. change [a1; a2; a3; a4; a5] with ([a1; a2; a3; a4] ++ [a5]).
      rewrite attempts_snoc. fold w4. unfold attemptAt. by rewrite Hstep. }
    assert (Hfind5 : find (has_email e) (users w5)
                     = Some (apply_patch (lockPatch 5 (fst a5 + 30 * 60 * 1000)) u4)).
    { rewrite Hw5. unfold afterAttempt. simpl. by apply find_email_update. }
    split; [by rewrite Hstep|]. split.
    + eexists. split; [exact Hfind5|]. by split.
    + intros t plain Ht. eexists. split.
      * apply (login_locked e plain (set_now t w5)
                 (apply_patch (lockPatch 5 (fst a5 + 30 * 60 * 1000)) u4)); simpl.
        -- by rewrite Hw5.
        -- exact Hfind5.
        -- simpl. by rewrite Hp4.
        -- eexists. split; [reflexivity|]. simpl. lia.
      * reflexivity.
Qed.

(** C3, as the code has it.  An unknown email and an account without a
    password both make [login] return [null] and throw nothing.  A wrong
    password on an account that is not locked throws an [Error] instead,
    whose message is the generic one while the counter stays below 5 and
    announces the lockout when the failure brings it to 5.  An attempt inside
    the lockout window throws the lockout message. *)
Theorem login_failure_outcomes (e plain : string) (w : World) :
  db_fault w = None →
  (find (has_email e) (users w) = None →
   fst (login argon2 e plain w) = Ok None)
  ∧ ∀ u : User,
      find (has_email e) (users w) = Some u →
      (truthy_string (password u) = false →
       fst (login argon2 e plain w) = Ok None)
      ∧ (truthy_string (password u) = true →
         unlockedAt (now w) u →
         verifies argon2 u plain = Ok false →
         (or_zero (failedAttempts u) + 1 < 5 →
          fst (login argon2 e plain w) = Throw "Invalid credentials. Please try again.")
         ∧ (5 ≤ or_zero (failedAttempts u) + 1 →
            fst (login argon2 e plain w)
            = Throw "Account is temporarily locked due to too many failed attempts. Please try again later."))
      ∧ (truthy_string (password u) = true →
         lockedAt (now w) u →
         fst (login argon2 e plain w)
         = Throw "Account is temporarily locked. Please try again later.").
Proof.
  intros Hdb. split.
  - intros Hfind. by rewrite login_unknown.
  - intros u Hfind. split; [|split].
    + intros Hpw. by rewrite (login_no_password e plain w u).
    + intros Hpw Hun Hv. split; intros Hn.
      * by rewrite (login_wrong_password e plain w u).
      * by rewrite (login_wrong_password_locks e plain w u).
    + intros Hpw Hlock. by rewrite (login_locked e plain w u).
Qed.

(** C4.  A login that succeeds writes [failedAttempts = 0] and clears
    [lockoutUntil]: it succeeds for every account with a password whose
    lockout date is unset or elapsed, whatever its counter, as soon as
    [verify] accepts the password; and after any successful login the stored
    user has its counter at 0 and no lockout date. *)
Theorem successful_login_resets_lockout_state :
  (∀ (e plain : string) (w : World) (u : User),
     db_fault w = None →
     List.NoDup (map _id (users w)) →
     find (has_email e) (users w) = Some u →
     truthy_string (password u) = true →
     unlockedAt (now w) u →
     verifies argon2 u plain = Ok true →
     ∃ w' u', login argon2 e plain w = (Ok (Some u), w')
              ∧ find (has_email e) (users w') = Some u'
              ∧ u' = apply_patch resetPatch u
              ∧ failedAttempts u' = Some 0
              ∧ lockoutUntil u' = None)
  ∧ (∀ (e plain : string) (w w' : World) (u : User),
       login argon2 e plain w = (Ok (Some u), w') →
       ∃ u', find (has_id (_id u)) (users w') = Some u'
             ∧ failedAttempts u' = Some 0
             ∧ lockoutUntil u' = None).
Proof.
  split.
  - intros e plain w u Hdb Hnd Hfind Hpw Hun Hv.
    exists (afterAttempt e plain u resetPatch w), (apply_patch resetPatch u).
    split; [by apply login_success|].
    split; [unfold afterAttempt; simpl; by apply find_email_update|done].
  - intros e plain w w' u.
    unfold login, bind, db_getUserByEmail, port. simpl.
    destruct (db_fault w) eqn:Hdb; [discriminate|].
    destruct (find (has_email e) (users w)) as [u0|] eqn:Hfind; [|discriminate].
    destruct (truthy_string (password u0)); simpl; [|discriminate].
    match goal with
    | |- context [if ?c then _ else _] => destruct c; [discriminate|]
    end.
    unfold try_catch, bind, argon2_verify, db_updateUserAttributes, port, Date_now.
    simpl. destruct (verify argon2 _ plain) as [[|]|err]; simpl.
    + rewrite Hdb. simpl. intros [= <- <-]. simpl.
      apply find_some in Hfind as [Hin _].
      destruct (find_id_update resetPatch (users w) u0 Hin) as (u1 & _ & Hupd).
      exists (apply_patch resetPatch u1). by split.
    + destruct (5 <=? _); simpl; rewrite Hdb; discriminate.
    + discriminate.
Qed.

(** C10.  [createUser] hands the port a record whose [failedAttempts] is 0
    whatever the caller supplied, counter and lockout date included: it
    returns whenever the store is reachable and the password, if any, can be
    hashed, and every user it returns is the one appended to the store, with
    its counter at 0. *)
Theorem createUser_initialises_failedAttempts (userData : UserFields) (w : World) :
  (db_fault w = None →
   (truthy_string (password userData) = true →
    ∃ h, hash argon2 (default "" (password userData)) = Ok h) →
   ∃ u w', createUser argon2 userData w = (Ok u, w'))
  ∧ (∀ (u : User) (w' : World),
       createUser argon2 userData w = (Ok u, w') →
       failedAttempts u = Some 0
       ∧ 0 ≤ or_zero (failedAttempts u)
       ∧ users w' = users w ++ [u]
       ∧ ∃ data, In (DbCreateUser data) (trace w') ∧ failedAttempts data = Some 0).
Proof.
  split.
  - apply createUser_returns.
  - intros u w' H. apply createUser_created in H as (H0 & _ & _ & Hus & Htr).
    rewrite H0. simpl. repeat split; [lia|done|done].
Qed.

End AuthProperties.

(** ** Sessions *)

Lemma truthy_nonempty (s : string) : s ≠ "" → truthy_string (Some s) = true.
Proof.
  intros H. unfold truthy_string. destruct (String.eqb_spec s ""); [contradiction|reflexivity].
Qed.

Lemma find_unique {A} (key : A → string) (k : string) (l : list A) (x : A) :
  List.NoDup (map key l) →
  In x l →
  key x = k →
  find (λ y, String.eqb (key y) k) l = Some x.
Proof.
  induction l as [|y l IH]; simpl; intros Hnd Hin Hk; [contradiction|].
  inversion Hnd as [|? ? Hnotin Hnd']; subst.
  destruct Hin as [->|Hin].
  - by rewrite String.eqb_refl.
  - destruct (String.eqb_spec (key y) (key x)) as [Heq|_]; [|by apply IH].
    exfalso. apply Hnotin. rewrite Heq. by apply in_map.
Qed.

Lemma update_first_In {A} (p : A → bool) (f : A → A) (l : list A) (x : A) :
  find p l = Some x → In (f x) (update_first p f l).
Proof.
  induction l as [|y l IH]; simpl; [discriminate|].
  destruct (p y); [intros [= ->]; by left|intros H; right; by apply IH].
Qed.

(** The [ttl] that [createSession] hands to the port. *)
Lemma createSession_outcome (uid did : string) (ttl : option Z) (ext : option bool) (w : World) :
  db_fault w = None →
  uid ≠ "" →
  did ≠ "" →
  createSession uid did ttl ext w
  = (let requested :=
       if default false ext then default (60 * 60 * 1000) ttl * 2
       else default (60 * 60 * 1000) ttl in
     let w1 := record (DbGetActiveSessionByDeviceId uid did) w in
     match find (λ s, session_of uid did s && (now w <? expires s)) (sessions w) with
     | Some s => db_updateSessionExpiry (session_id s) requested w1
     | None => db_createSession uid did requested w1
     end).
Proof.
  intros Hdb Hu Hd. unfold createSession.
  rewrite (truthy_nonempty uid), (truthy_nonempty did) by done. simpl.
  unfold bind at 1, db_getActiveSessionByDeviceId. rewrite port_up by done. simpl.
  destruct (find _ (sessions w)) as [s|]; unfold bind, ret.
  - by destruct (db_updateSessionExpiry _ _ _) as [[?|?] ?].
  - by destruct (db_createSession _ _ _ _) as [[?|?] ?].
Qed.

(** C2.  With a session of the pair that has not expired, [createSession]
    renews it: the session returned has the same identifier and expires the
    newly requested ttl (doubled when extended) from now, the port is asked
    to look the session up and to update it and never to create one, and the
    store holds the same identifiers as before.  Without one, it creates a
    session of the pair that expires the requested ttl (doubled when
    extended) from now.  The ttl is one hour unless given. *)
Theorem createSession_renews_or_creates
    (uid did : string) (ttl : option Z) (ext : option bool) (w : World) :
  db_fault w = None →
  uid ≠ "" →
  did ≠ "" →
  let requested :=
    if default false ext then default 3600000 ttl * 2 else default 3600000 ttl in
  (∀ s : Session,
     find (λ s, session_of uid did s && (now w <? expires s)) (sessions w) = Some s →
     ∃ s' w', createSession uid did ttl ext w = (Ok s', w')
              ∧ session_id s' = session_id s
              ∧ expires s' = now w + requested
              ∧ In s' (sessions w')
              ∧ map session_id (sessions w') = map session_id (sessions w)
              ∧ trace w' = trace w ++ [DbGetActiveSessionByDeviceId uid did;
                                       DbUpdateSessionExpiry (session_id s) requested]
              ∧ (List.NoDup (map session_id (sessions w)) →
                 s' = set_expires (now w + requested) s))
  ∧ (find (λ s, session_of uid did s && (now w <? expires s)) (sessions w) = None →
     ∃ s' w', createSession uid did ttl ext w = (Ok s', w')
              ∧ user_id s' = uid
              ∧ device_id s' = did
              ∧ expires s' = now w + requested
              ∧ sessions w' = sessions w ++ [s']
              ∧ trace w' = trace w ++ [DbGetActiveSessionByDeviceId uid did;
                                       DbCreateSession uid did requested]).
Proof.
  intros Hdb Hu Hd requested. split.
  - intros s Hs. rewrite createSession_outcome by done. simpl. rewrite Hs.
    fold requested. unfold db_updateSessionExpiry. rewrite port_up by done. simpl.
    assert (Hin : In s (sessions w)) by (by apply find_some in Hs as [? _]).
    destruct (find (has_session_id (session_id s)) (sessions w)) as [s0|] eqn:H0.
    + assert (Hid : session_id s0 = session_id s)
        by (apply find_some in H0 as [_ H0]; by apply String.eqb_eq in H0).
      eexists _, _. split; [reflexivity|]. simpl.
      split; [done|]. split; [done|].
      split; [by apply update_first_In|].
      split; [by apply update_first_ids|].
      split; [by rewrite <- app_assoc|].
      intros Hnd. f_equal.
      pose proof (find_unique session_id (session_id s) (sessions w) s Hnd Hin eq_refl) as Hf.
      unfold has_session_id in H0. congruence.
    + exfalso. apply (find_none _ _ H0) in Hin. unfold has_session_id in Hin.
      by rewrite String.eqb_refl in Hin.
  - intros Hs. rewrite createSession_outcome by done. simpl. rewrite Hs.
    fold requested. unfold db_createSession. rewrite port_up by done. simpl.
    eexists _, _. split; [reflexivity|]. simpl.
    repeat split. by rewrite <- app_assoc.
Qed.

(** ** The session cache *)

(** What [JSON.parse(JSON.stringify(u))] is: [u] with its date as a
    string. *)
Lemma User_json_copy (u : User) : User_of_json (User_to_json u) = JSON_copy u.
Proof.
  destruct u as [id [e p un r la ir fa lu]].
  destruct e, p, un, r, la, ir, fa, lu; reflexivity.
Qed.

(** The copy is the user itself exactly when the user holds no [Date]. *)
Lemma JSON_copy_same (u : User) : JSON_copy u = u ↔ ¬ holdsDate u.
Proof.
  destruct u as [id [e p un r la ir fa lu]]. unfold holdsDate, JSON_copy. simpl.
  destruct lu as [[t|t]|]; simpl.
  - split; [intros [=]|]. intros H. exfalso. apply H. by exists t.
  - split; [|done]. by intros _ [t' [=]].
  - split; [|done]. by intros _ [t' [=]].
Qed.

Lemma User_json_truthy (u : User) : json_truthy (User_to_json u) = true.
Proof. reflexivity. Qed.

Lemma getCache_disabled {T} `{Cacheable T} (key : string) (w : World) :
  redisClient w = None → getCache (T:=T) key w = (Ok None, w).
Proof. intros Hc. unfold getCache. by rewrite Hc. Qed.

Lemma setCache_disabled {T} `{Cacheable T} (key : string) (v : T) (ex : option Z) (w : World) :
  redisClient w = None → setCache key v ex w = (Ok tt, w).
Proof. intros Hc. unfold setCache. by rewrite Hc. Qed.

(** A lookup is answered with the live document, read at type [T]; a fault
    of the client counts as a miss. *)
Lemma getCache_enabled {T} `{Cacheable T} (key : string) (w : World) :
  is_Some (redisClient w) →
  getCache (T:=T) key w
  = (Ok (match redis_fault w, live key w with
         | None, Some v => if json_truthy v then Some (JSON_parse_as v) else None
         | _, _ => None
         end),
     record (RedisGet key) w).
Proof.
  intros [keys Hc]. unfold getCache, try_catch, bind, redis_get, command, live, ret.
  rewrite Hc. simpl. rewrite Hc.
  destruct (redis_fault w); [reflexivity|].
  destruct (keys !! key) as [[v d]|]; [|reflexivity].
  by destruct (now w <? d).
Qed.

Lemma getCachedSession_miss (sid : string) (w : World) :
  live ("session:" +:+ sid) w = None →
  ∃ w', getCachedSession sid w = (Ok None, w')
        ∧ users w' = users w ∧ sessions w' = sessions w
        ∧ db_fault w' = db_fault w ∧ now w' = now w.
Proof.
  intros Hlive. unfold getCachedSession.
  destruct (redisClient w) as [keys|] eqn:Hc.
  - rewrite getCache_enabled by (rewrite Hc; eauto). rewrite Hlive.
    eexists. split; [by destruct (redis_fault w)|done].
  - rewrite getCache_disabled by done. eexists. split; [reflexivity|done].
Qed.

(** C8, as the code has it.  With a connected client that answers, a user
    written with [setCachedSession] under a positive expiry (3600 seconds
    unless given) comes back from [getCachedSession] as JSON leaves it: the
    same identifier and attributes, except that a [lockoutUntil] that was a
    [Date] is now the ISO string of that date, which denotes the same
    instant.  What comes back is equal to what was stored exactly when the
    user held no [Date].  Without a client, which is how [initializeRedis]
    leaves a configuration with caching switched off, [getCachedSession]
    returns [null] and [setCachedSession] returns without error, neither
    touching the world. *)
Theorem session_cache_roundtrip (sid : string) (user : User) (ex : option Z) (w : World) :
  (is_Some (redisClient w) →
   redis_fault w = None →
   0 < default 3600 ex →
   ∃ w' cached,
     setCachedSession sid user ex w = (Ok tt, w')
     ∧ fst (getCachedSession sid w') = Ok (Some cached)
     ∧ cached = JSON_copy user
     ∧ _id cached = _id user
     ∧ email cached = email user
     ∧ password cached = password user
     ∧ username cached = username user
     ∧ role cached = role user
     ∧ lastAuthMethod cached = lastAuthMethod user
     ∧ isRegistered cached = isRegistered user
     ∧ failedAttempts cached = failedAttempts user
     ∧ (∀ t, lockoutUntil user = Some (DateObject t) →
             lockoutUntil cached = Some (IsoString t))
     ∧ option_map instant (lockoutUntil cached) = option_map instant (lockoutUntil user)
     ∧ (cached = user ↔ ¬ holdsDate user))
  ∧ (redisClient w = None →
     getCachedSession sid w = (Ok None, w)
     ∧ setCachedSession sid user ex w = (Ok tt, w))
  ∧ (USE_REDIS w = false →
     ∀ server, redisClient w = None →
       redisClient (snd (initializeRedis server w)) = None).
Proof.
  split; [|split].
  - intros [keys Hc] Hf Hex.
    unfold setCachedSession, setCache, try_catch, redis_set, command.
    rewrite Hc. simpl. rewrite Hc, Hf.
    destruct (Z.ltb_spec 0 (default 3600 ex)) as [_|?]; [|lia].
    eexists _, (JSON_copy user). split; [reflexivity|]. split.
    { unfold getCachedSession. rewrite getCache_enabled by (simpl; eauto).
      unfold live. simpl. rewrite Hf, lookup_insert_eq.
      destruct (Z.ltb_spec (now w) (now w + default 3600 ex * 1000)) as [_|?]; [|lia].
      simpl. by rewrite User_json_copy. }
    split; [reflexivity|]. do 8 (split; [reflexivity|]).
    split; [intros t Ht; simpl; by rewrite Ht|].
    split; [simpl; by destruct (lockoutUntil user) as [[?|?]|]|].
    apply JSON_copy_same.
  - intros Hc. split.
    + by apply getCache_disabled.
    + unfold setCachedSession. by apply setCache_disabled.
  - intros Huse server Hc. unfold initializeRedis, bind, privateEnv_USE_REDIS.
    rewrite Huse. simpl. exact Hc.
Qed.

(** ** [validateSession] and [destroySession] *)

(** C5, as the code has it.  For a session identifier that is not empty and
    that the persistence port does not know or knows as expired,
    [validateSession] returns [null] without throwing, provided caching is
    switched off or the cache holds no live entry for it; faults of the cache
    are immaterial.  The stored users and sessions are left as they were. *)
Theorem validateSession_unknown_or_expired (sid : string) (w : World) :
  sid ≠ "" →
  db_fault w = None →
  (find (has_session_id sid) (sessions w) = None
   ∨ ∃ s, find (has_session_id sid) (sessions w) = Some s ∧ expires s ≤ now w) →
  (USE_REDIS w = false ∨ live ("session:" +:+ sid) w = None) →
  ∃ w', validateSession sid w = (Ok None, w')
        ∧ users w' = users w ∧ sessions w' = sessions w.
Proof.
  intros Hsid Hdb Hgone Hcache.
  assert (Hport : ∀ w1, users w1 = users w → sessions w1 = sessions w →
                        db_fault w1 = None → now w1 = now w →
            db_validateSession sid w1 = (Ok None, record (DbValidateSession sid) w1)).
  { intros w1 Hu Hs Hd Hn. unfold db_validateSession. rewrite port_up by done.
    simpl. rewrite Hs, Hn.
    destruct Hgone as [->|(s & -> & Hexp)]; [reflexivity|].
    destruct (Z.ltb_spec (now w) (expires s)); [lia|reflexivity]. }
  unfold validateSession, try_catch.
  rewrite truthy_nonempty by done. simpl.
  unfold bind at 1, privateEnv_USE_REDIS.
  destruct (USE_REDIS w) eqn:Huse.
  - destruct Hcache as [?|Hlive]; [discriminate|].
    destruct (getCachedSession_miss sid w Hlive) as (w1 & Hget & Hu & Hs & Hd & Hn).
    unfold bind. rewrite Hget. rewrite Hport by congruence.
    eexists. split; [reflexivity|]. simpl. by split.
  - unfold bind, ret. rewrite Hport by done.
    eexists. split; [reflexivity|]. by split.
Qed.

(** C6, as the code has it.  [destroySession] asks the port first.  When the
    durable delete fails the call fails with that error and the cache is not
    touched: no eviction is attempted.  When it succeeds the call succeeds,
    whether or not the eviction does; the eviction is attempted whenever
    caching is configured and a client is connected, and removes the entry
    whenever the client answers. *)
Theorem destroySession_outcomes (sid : string) (w : World) :
  (∀ e : string,
     db_fault w = Some e →
     destroySession sid w
     = (Throw ("Failed to destroy session: " +:+ e), record (DbDestroySession sid) w))
  ∧ (db_fault w = None →
     ∃ w', destroySession sid w = (Ok tt, w')
           ∧ sessions w' = List.filter (λ s, negb (has_session_id sid s)) (sessions w)
           ∧ (USE_REDIS w = true → is_Some (redisClient w) →
              trace w' = trace w ++ [DbDestroySession sid; RedisDel ("session:" +:+ sid)])
           ∧ (USE_REDIS w = true → redis_fault w = None →
              ∀ keys, redisClient w = Some keys →
                redisClient w' = Some (delete ("session:" +:+ sid) keys))).
Proof.
  split.
  - intros e Hdb. unfold destroySession, try_catch, bind, db_destroySession.
    by rewrite (port_down _ _ _ e).
  - intros Hdb. unfold destroySession, try_catch, bind, db_destroySession.
    rewrite port_up by done. simpl.
    unfold privateEnv_USE_REDIS. simpl.
    destruct (USE_REDIS w) eqn:Huse.
    + unfold clearCachedSession, clearCache, try_catch, redis_del, command. simpl.
      destruct (redisClient w) as [keys|] eqn:Hc; simpl.
      * destruct (redis_fault w) as [err|] eqn:Hf; simpl.
        -- eexists. split; [reflexivity|]. simpl. split; [done|].
           split; [intros; by rewrite <- app_assoc|discriminate].
        -- eexists. split; [reflexivity|]. simpl. split; [done|].
           split; [intros; by rewrite <- app_assoc|].
           by intros _ _ ? [= <-].
      * eexists. split; [reflexivity|]. simpl. split; [done|].
        split; [by intros _ [? ?]|discriminate].
    + eexists. split; [reflexivity|]. simpl. split; [done|].
      split; discriminate.
Qed.

(** ** Default roles *)

Import RoleAdapter.

Lemma find_app_Some {A} (p : A → bool) (l l' : list A) (x : A) :
  find p l = Some x → find p (l ++ l') = Some x.
Proof.
  induction l as [|y l IH]; simpl; [discriminate|].
  destruct (p y); [done|exact IH].
Qed.

Lemma find_app_None {A} (p : A → bool) (l l' : list A) :
  find p (l ++ l') = None → find p l = None.
Proof.
  induction l as [|y l IH]; simpl; [done|].
  destruct (p y); [done|exact IH].
Qed.

Lemma seedRole_present (role : RoleData) (n : string) (r : Role) (w : World) :
  db_fault w = None →
  name role = Some n →
  find (has_name n) (roles w) = Some r →
  seedRole role w = (Ok tt, record (RoleFindOne n) w).
Proof.
  intros Hdb Hn Hfind.
  unfold seedRole, bind, getRoleByName, try_catch, RoleModel_findOne.
  rewrite Hn. simpl. rewrite port_up by done. simpl. by rewrite Hfind.
Qed.

Lemma seedRole_absent (role : RoleData) (n : string) (w : World) :
  db_fault w = None →
  name role = Some n →
  n ≠ "" →
  find (has_name n) (roles w) = None →
  seedRole role w
  = (Ok tt,
     set_next_id (N.succ (next_id w))
       (set_roles (roles w ++ [seeded n role w])
          (record (RoleSave role) (record (RoleFindOne n) w)))).
Proof.
  intros Hdb Hn Hne Hfind.
  unfold seedRole, bind, getRoleByName, createRole, try_catch,
    RoleModel_findOne, RoleModel_save.
  rewrite Hn. simpl. rewrite port_up by done. simpl. rewrite Hfind.
  rewrite port_up by done.
  by destruct (String.eqb_spec n "").
Qed.

(** Seeding roles that are all stored already only queries the store. *)
Lemma seeding_noop (ds : list RoleData) :
  ∀ w : World,
    db_fault w = None →
    Forall (present w) ds →
    ∃ w', for_of ds seedRole w = (Ok tt, w')
          ∧ roles w' = roles w ∧ next_id w' = next_id w
          ∧ users w' = users w ∧ sessions w' = sessions w
          ∧ db_fault w' = None.
Proof.
  induction ds as [|d ds IH]; intros w Hdb Hall.
  - eexists. split; [reflexivity|done].
  - inversion Hall as [|? ? (n & r & Hn & Hfind) Hall']; subst.
    simpl. unfold bind. rewrite (seedRole_present d n r w) by done.
    destruct (IH (record (RoleFindOne n) w)) as (w' & Hrun & Hw'); [done|exact Hall'|].
    exists w'. split; [exact Hrun|exact Hw'].
Qed.

(** Seeding roles that have a name never fails while the store answers; it
    only appends roles, one for each name that was missing, each with the
    description given for that name, and leaves every name stored. *)
Lemma seeding_total (ds : list RoleData) :
  Forall (λ d, truthy_string (name d) = true) ds →
  ∀ w : World,
    db_fault w = None →
    ∃ w' extra,
      for_of ds seedRole w = (Ok tt, w')
      ∧ db_fault w' = None
      ∧ roles w' = roles w ++ extra
      ∧ Forall (λ r, (∃ d, In d ds ∧ name d = Some (role_name r)
                           ∧ role_description r = description d)
                     ∧ find (has_name (role_name r)) (roles w) = None
                     ∧ role_permissions r = []) extra
      ∧ Forall (present w') ds.
Proof.
  induction 1 as [|d ds Hd Hds IH]; intros w Hdb;
    [|destruct (name d) as [n|] eqn:Hn; [|discriminate];
      assert (Hne : n ≠ "") by (intros ->; discriminate)].
  - exists w, []. split; [reflexivity|]. split; [done|].
    split; [by rewrite app_nil_r|]. by split.
  - simpl. unfold bind.
    destruct (find (has_name n) (roles w)) as [r|] eqn:Hfind.
    + rewrite (seedRole_present d n r w) by done.
      destruct (IH (record (RoleFindOne n) w) Hdb) as (w' & extra & Hrun & Hdb' & Hroles & Hextra & Hpres).
      exists w', extra. split; [exact Hrun|]. split; [done|]. split; [exact Hroles|].
      split.
      * eapply Forall_impl; [exact Hextra|]. intros x ((d' & Hin & Hx) & ? & ?).
        split; [exists d'; split; [by right|done]|done].
      * constructor; [|exact Hpres].
        exists n, r. split; [done|]. rewrite Hroles. by apply find_app_Some.
    + rewrite (seedRole_absent d n w) by done.
      match goal with
      | |- context [for_of ds seedRole ?w1] =>
          destruct (IH w1 Hdb) as (w' & extra & Hrun & Hdb' & Hroles & Hextra & Hpres)
      end.
      simpl in Hroles.
      exists w', (seeded n d w :: extra). split; [exact Hrun|]. split; [done|].
      split; [by rewrite Hroles, <- app_assoc|]. split.
      * constructor.
        -- simpl. split; [exists d; split; [by left|done]|done].
        -- eapply Forall_impl; [exact Hextra|]. simpl.
           intros x ((d' & Hin & Hx) & Hnone & Hperm).
           split; [exists d'; split; [by right|done]|].
           split; [|exact Hperm]. by apply find_app_None in Hnone.
      * constructor; [|exact Hpres].
        exists n, (seeded n d w). split; [done|]. rewrite Hroles.
        apply find_app_Some.
        clear -Hfind. induction (roles w) as [|y l IHl]; simpl in *.
        -- unfold has_name. simpl. by rewrite String.eqb_refl.
        -- destruct (has_name n y); [discriminate|by apply IHl].
Qed.

(** C9, as the code has it.  While the store answers,
    [initializeDefaultRoles] succeeds and stores a role under each of the
    names admin, developer, editor and user, by appending one role for each
    name that was missing and nothing else (names are compared exactly).  A
    role it stores holds its name, the description the source gives for that
    name, and an empty list of permissions; the default permission matrix is
    the separate constant [defaultPermissions], which has an entry over
    create, read, write and delete for each of the four names.  On an empty
    collection exactly those four roles are stored, in that order.  When the
    four names are stored already, and in particular when it runs a second
    time, it leaves the roles and the identifier counter as they are. *)
Theorem initializeDefaultRoles_seeds_once (w : World) :
  db_fault w = None →
  (∃ w1 extra,
     initializeDefaultRoles w = (Ok tt, w1)
     ∧ roles w1 = roles w ++ extra
     ∧ Forall (λ r, In (role_name r) roleNames
                    ∧ find (has_name (role_name r)) (roles w) = None
                    ∧ In (role_name r, role_description r)
                         [("admin", Some "Administrator with all permissions");
                          ("developer", Some "Developer with elevated permissions");
                          ("editor", Some "Content editor");
                          ("user", Some "Regular user with basic permissions")]
                    ∧ role_permissions r = []) extra
     ∧ Forall (present w1) defaultRoles
     ∧ ∃ w2, initializeDefaultRoles w1 = (Ok tt, w2)
             ∧ roles w2 = roles w1 ∧ next_id w2 = next_id w1
             ∧ users w2 = users w1 ∧ sessions w2 = sessions w1)
  ∧ (roles w = [] →
     ∃ w1, initializeDefaultRoles w = (Ok tt, w1)
           ∧ map (λ r, (role_name r, role_description r, role_permissions r)) (roles w1)
             = [("admin", Some "Administrator with all permissions", []);
                ("developer", Some "Developer with elevated permissions", []);
                ("editor", Some "Content editor", []);
                ("user", Some "Regular user with basic permissions", [])]
           ∧ map role_id (roles w1)
             = map (λ i, fresh_id "r" (next_id w + i)%N) [0; 1; 2; 3]%N)
  ∧ (Forall (present w) defaultRoles →
     ∃ w1, initializeDefaultRoles w = (Ok tt, w1)
           ∧ roles w1 = roles w ∧ next_id w1 = next_id w)
  ∧ (∀ n, In n ["admin"; "developer"; "editor"; "user"] →
     ∃ m, Obj.get n defaultPermissions = Some m
          ∧ ∀ p, In p (Obj.keys m) ↔ In p ["create"; "read"; "write"; "delete"]).
Proof.
  intros Hdb.
  assert (Hnames : Forall (λ d, truthy_string (name d) = true) defaultRoles)
    by (by repeat constructor).
  split; [|split; [|split]].
  - destruct (seeding_total defaultRoles Hnames w Hdb)
      as (w1 & extra & Hrun & Hdb1 & Hroles & Hextra & Hpres).
    destruct (seeding_noop defaultRoles w1 Hdb1 Hpres)
      as (w2 & Hrun2 & Hr2 & Hn2 & Hu2 & Hs2 & _).
    exists w1, extra. unfold initializeDefaultRoles, try_catch. rewrite Hrun.
    split; [reflexivity|]. split; [exact Hroles|]. split.
    + eapply Forall_impl; [exact Hextra|]. simpl.
      intros r ((d & Hin & Hname & Hdesc) & Hnone & Hperm).
      rewrite Hdesc. unfold roleNames, adminRole, flexibleRoles.
      simpl in Hin. destruct Hin as [<-|[<-|[<-|[<-|[]]]]];
        injection Hname as Hname; rewrite <- Hname in *;
        (split; [|split; [done|split; [|done]]]); simpl; auto 10.
    + split; [exact Hpres|]. exists w2. rewrite Hrun2. by repeat split.
  - intros Hempty. unfold initializeDefaultRoles, try_catch, defaultRoles.
    simpl. unfold bind.
    rewrite (seedRole_absent _ "admin");
      [|done|reflexivity|done|by rewrite Hempty].
    rewrite (seedRole_absent _ "developer");
      [|done|reflexivity|done|simpl; by rewrite Hempty].
    rewrite (seedRole_absent _ "editor");
      [|done|reflexivity|done|simpl; by rewrite Hempty].
    rewrite (seedRole_absent _ "user");
      [|done|reflexivity|done|simpl; by rewrite Hempty].
    eexists. split; [reflexivity|]. simpl. rewrite Hempty. simpl.
    split; [reflexivity|].
    rewrite N.add_0_r, !N.add_1_r.
    by replace (next_id w + 2)%N with (N.succ (N.succ (next_id w))) by lia;
       replace (next_id w + 3)%N with (N.succ (N.succ (N.succ (next_id w)))) by lia.
  - intros Hpres. destruct (seeding_noop defaultRoles w Hdb Hpres)
      as (w1 & Hrun & Hr & Hn & _).
    exists w1. unfold initializeDefaultRoles, try_catch. by rewrite Hrun.
  - intros n Hn. simpl in Hn.
    destruct Hn as [<-|[<-|[<-|[<-|[]]]]];
      (eexists; split; [reflexivity|]; intros p; simpl; tauto).
Qed.

(** ** [sanitizePermissions] *)

Lemma Obj_set_define {V} (k : string) (v : V) (o : Obj.t V) :
  k ≠ "__proto__" → Obj.set k v o = Obj.define k v o.
Proof. intros Hk. unfold Obj.set. by destruct (String.eqb_spec k "__proto__"). Qed.

(** Setting then emptying: an accumulator that holds no role [r] is left as
    it was when [r] keeps no permission. *)
Lemma Obj_set_empty_delete (r : string) :
  let acc := Obj.set r ([] : Obj.t bool) [] in
  (if (length (Obj.keys (default [] (Obj.get r acc))) =? 0)%nat
   then Obj.delete r acc else acc) = [].
Proof.
  unfold Obj.set. destruct (String.eqb r "__proto__"); simpl; [reflexivity|].
  by rewrite String.eqb_refl.
Qed.

Section SanitizeProperties.

Context (inherited : Prototype).

Lemma sanitizeRole_matching (r : string) (defaults perms : Obj.t bool) :
  Obj.get r defaultPermissions = Some defaults →
  (∀ p v, In (p, v) perms → Obj.get p defaults = Some v) →
  sanitizeRole inherited r perms [] = Ok [].
Proof.
  intros Hr. induction perms as [|[p v] perms IH]; intros Hall; [reflexivity|].
  cbn [sanitizeRole]. unfold overridden. rewrite Hr. rewrite (Hall p v) by (by left).
  cbn [loose_neq]. rewrite Bool.eqb_reflx. cbn [negb]. apply IH. intros p' v' Hin. apply Hall. by right.
Qed.

Lemma sanitizeRoles_matching (m : Permissions) :
  matchesDefault m → sanitizeRoles inherited m [] = Ok [].
Proof.
  induction m as [|[r perms] m IH]; intros Hall; [reflexivity|].
  cbn [sanitizeRoles].
  assert (Hkept : sanitizeRole inherited r perms [] = Ok []).
  { destruct perms as [|[p v] perms]; [reflexivity|].
    destruct (Hall r ((p, v) :: perms) p v) as (defaults & Hr & _);
      [by left|by left|].
    apply (sanitizeRole_matching r defaults); [exact Hr|].
    intros p' v' Hin.
    destruct (Hall r ((p, v) :: perms) p' v') as (defaults' & Hr' & Hp');
      [by left|exact Hin|].
    congruence. }
  rewrite Hkept. cbv zeta. rewrite Obj_set_empty_delete.
  apply IH. intros r' perms' p' v' Hin Hin'. apply (Hall r' perms' p' v'); [by right|done].
Qed.

Lemma defaultPermissions_matches : matchesDefault defaultPermissions.
Proof.
  intros r perms p v Hr Hp. vm_compute in Hr.
  repeat match goal with
         | H : _ ∨ _ |- _ => destruct H
         | H : False |- _ => destruct H
         | H : (_, _) = (r, perms) |- _ => injection H as <- <-; vm_compute in Hp
         | H : (_, _) = (p, v) |- _ => injection H as <- <-
         end;
    (eexists; split; reflexivity).
Qed.

(** C7.  On the default matrix, and on any matrix all of whose entries are
    those of the default, [sanitizePermissions] returns [undefined].  On the
    default matrix with one permission of one role flipped it returns the
    object that holds that role alone, with that permission alone at its new
    value. *)
Theorem sanitizePermissions_minimal_diff :
  sanitizePermissions inherited defaultPermissions = Ok None
  ∧ (∀ m, matchesDefault m → sanitizePermissions inherited m = Ok None)
  ∧ (∀ r p,
       In r ["admin"; "developer"; "editor"; "user"] →
       In p ["create"; "read"; "write"; "delete"] →
       ∃ defaults d,
         Obj.get r defaultPermissions = Some defaults
         ∧ Obj.get p defaults = Some d
         ∧ sanitizePermissions inherited (setPermission r p (negb d) defaultPermissions)
           = Ok (Some [(r, [(p, negb d)])])).
Proof.
  split; [reflexivity|]. split.
  - intros m Hm. unfold sanitizePermissions. by rewrite sanitizeRoles_matching.
  - intros r p Hr Hp. simpl in Hr, Hp.
    destruct Hr as [<-|[<-|[<-|[<-|[]]]]];
      destruct Hp as [<-|[<-|[<-|[<-|[]]]]];
      (eexists _, _; split; [reflexivity|]; split; [reflexivity|]; reflexivity).
Qed.

End SanitizeProperties.

(* ===================================================================== *)
(** * Worked instances *)
(* ===================================================================== *)

Lemma world0_ids : List.NoDup (map _id (users world0)).
Proof.
  repeat constructor; simpl; intros H; repeat destruct H as [H|H]; try discriminate; exact H.
Defined.

(** Bob, locked until 500, is turned away at instant 100 although the
    password is his; alice is locked by [fiveWrong] and turned away one
    second later although the password is hers. *)
Lemma locked_account_witness :
  lockedAt 100 bob
  ∧ (∃ w', login toy_argon2 "bob@example.com" "hunter2" (set_now 100 world0)
           = (Throw "Account is temporarily locked. Please try again later.", w')
           ∧ trace w' = trace (set_now 100 world0) ++ [DbGetUserByEmail "bob@example.com"]
           ∧ users w' = users world0)
  ∧ (∃ u5, find (has_email "alice@example.com")
             (users (attempts toy_argon2 "alice@example.com" fiveWrong world0)) = Some u5
           ∧ failedAttempts u5 = Some 5
           ∧ lockoutUntil u5 = Some (DateObject (5000 + 30 * 60 * 1000)))
  ∧ ∃ w6, login toy_argon2 "alice@example.com" "correct horse"
            (set_now 6000 (attempts toy_argon2 "alice@example.com" fiveWrong world0))
          = (Throw "Account is temporarily locked. Please try again later.", w6)
          ∧ trace w6
            = trace (attempts toy_argon2 "alice@example.com" fiveWrong world0)
              ++ [DbGetUserByEmail "alice@example.com"].
Proof.
  destruct (locked_account_is_rejected_without_verify toy_argon2) as [H1 H2].
  assert (Hbob : lockedAt 100 bob)
    by (exists (DateObject 500); split; [reflexivity|simpl; lia]).
  split; [exact Hbob|]. split.
  - apply (H1 "bob@example.com" "hunter2" (set_now 100 world0) bob);
      [reflexivity|reflexivity|reflexivity|exact Hbob].
  - destruct (H2 "alice@example.com" world0 alice
                (1000, "a") (2000, "b") (3000, "c") (4000, "d") (5000, "e"))
      as (_ & Hu5 & H6);
      [reflexivity|exact world0_ids|reflexivity|reflexivity|reflexivity|reflexivity
      |repeat (constructor; [reflexivity|]); constructor|].
    split; [exact Hu5|]. apply (H6 6000 "correct horse"). simpl. lia.
Defined.

(** An unknown email and a wrong password are told apart: [null] for the
    first, a thrown [Error] for the second, neither account being locked. *)
Lemma login_outcomes_differ :
  find (has_email "nobody@example.com") (users world0) = None
  ∧ find (has_email "alice@example.com") (users world0) = Some alice
  ∧ lockoutUntil alice = None
  ∧ verifies toy_argon2 alice "wrong" = Ok false
  ∧ fst (login toy_argon2 "nobody@example.com" "wrong" world0) = Ok None
  ∧ fst (login toy_argon2 "alice@example.com" "wrong" world0)
    = Throw "Invalid credentials. Please try again."
  ∧ fst (login toy_argon2 "nobody@example.com" "wrong" world0)
    ≠ fst (login toy_argon2 "alice@example.com" "wrong" world0).
Proof. vm_compute. repeat split; try reflexivity. discriminate. Qed.

Lemma login_failure_outcomes_witness :
  db_fault world0 = None
  ∧ fst (login toy_argon2 "alice@example.com" "wrong" world0)
    = Throw "Invalid credentials. Please try again.".
Proof.
  split; [reflexivity|].
  destruct (login_failure_outcomes toy_argon2 "alice@example.com" "wrong" world0 eq_refl)
    as [_ H].
  destruct (H alice eq_refl) as (_ & H2 & _).
  apply H2; [reflexivity|intros t Ht; discriminate Ht|reflexivity|simpl; lia].
Defined.

(** Bob's lockout has elapsed at instant 1000: his password lets him in, and
    his counter of 5 and his lockout date are gone. *)
Lemma successful_login_witness :
  unlockedAt (now world0) bob
  ∧ ∃ w' u', login toy_argon2 "bob@example.com" "hunter2" world0 = (Ok (Some bob), w')
             ∧ find (has_email "bob@example.com") (users w') = Some u'
             ∧ failedAttempts u' = Some 0
             ∧ lockoutUntil u' = None.
Proof.
  assert (Hbob : unlockedAt (now world0) bob).
  { intros t Ht. injection Ht as <-. simpl. lia. }
  split; [exact Hbob|].
  destruct (proj1 (successful_login_resets_lockout_state toy_argon2)
              "bob@example.com" "hunter2" world0 bob)
    as (w' & u' & H1 & H2 & _ & H3 & H4);
    [reflexivity|exact world0_ids|reflexivity|reflexivity|exact Hbob|reflexivity|].
  exists w', u'. repeat split; assumption.
Defined.

(** Carol asks for a counter of 7; she is stored with 0. *)
Lemma createUser_witness :
  failedAttempts carol = Some 7
  ∧ ∃ u w', createUser toy_argon2 carol world0 = (Ok u, w')
            ∧ failedAttempts u = Some 0
            ∧ users w' = users world0 ++ [u].
Proof.
  split; [reflexivity|].
  destruct (createUser_initialises_failedAttempts toy_argon2 carol world0) as [Hruns Hzero].
  destruct Hruns as (u & w' & Hrun);
    [reflexivity|intros _; eexists; reflexivity|].
  destruct (Hzero u w' Hrun) as (H0 & _ & Hus & _).
  exists u, w'. repeat split; assumption.
Defined.

(** On device A alice's session is renewed under its identifier; on device
    B, where she has none, an extended session of twice the default hour is
    created. *)
Lemma createSession_witness :
  (∃ s' w', createSession "u0" "deviceA" (Some 3600) (Some false) world1 = (Ok s', w')
            ∧ session_id s' = "s2"
            ∧ expires s' = 1000 + 3600
            ∧ map session_id (sessions w') = ["s2"])
  ∧ (∃ s' w', createSession "u0" "deviceB" None (Some true) world1 = (Ok s', w')
              ∧ expires s' = 1000 + 7200000
              ∧ sessions w' = sessions world1 ++ [s']).
Proof.
  split.
  - destruct (createSession_renews_or_creates "u0" "deviceA" (Some 3600) (Some false) world1)
      as [Hrenew _]; [reflexivity|discriminate|discriminate|].
    destruct (Hrenew {| session_id := "s2"; user_id := "u0";
                        device_id := "deviceA"; expires := 1500 |})
      as (s' & w' & Hrun & Hid & Hexp & _ & Hids & _); [reflexivity|].
    exists s', w'. repeat split; assumption.
  - destruct (createSession_renews_or_creates "u0" "deviceB" None (Some true) world1)
      as [_ Hcreate]; [reflexivity|discriminate|discriminate|].
    destruct Hcreate as (s' & w' & Hrun & _ & _ & Hexp & Hss & _); [reflexivity|].
    exists s', w'. repeat split; assumption.
Defined.

(** In [world2] the session of alice has expired in the store, and
    [validateSession] still answers with alice, from the cache. *)
Lemma stale_session_is_validated :
  db_fault world2 = None
  ∧ redis_fault world2 = None
  ∧ find (has_session_id "s2") (sessions world2)
    = Some {| session_id := "s2"; user_id := "u0"; device_id := "deviceA"; expires := 1500 |}
  ∧ 1500 ≤ now world2
  ∧ fst (validateSession "s2" world2) = Ok (Some alice)
  ∧ fst (validateSession "s2" world2) ≠ Ok None.
Proof.
  split; [reflexivity|]. split; [reflexivity|]. split; [reflexivity|].
  split; [simpl; lia|]. split; [vm_compute; reflexivity|vm_compute; discriminate].
Qed.

Lemma validateSession_witness :
  ∃ w', validateSession "nope" world0 = (Ok None, w')
        ∧ users w' = users world0 ∧ sessions w' = sessions world0.
Proof.
  apply validateSession_unknown_or_expired;
    [discriminate|reflexivity|left; reflexivity|right; reflexivity].
Defined.

(** In [world3] the store is out of reach and the cache holds alice under
    the session: [destroySession] fails, asks nothing of the cache, and the
    entry stays. *)
Lemma failed_delete_skips_eviction :
  USE_REDIS world3 = true
  ∧ redis_fault world3 = None
  ∧ live "session:s2" world3 = Some (User_to_json alice)
  ∧ fst (destroySession "s2" world3) = Throw "Failed to destroy session: connection lost"
  ∧ trace (snd (destroySession "s2" world3)) = [DbDestroySession "s2"]
  ∧ ¬ In (RedisDel "session:s2") (trace (snd (destroySession "s2" world3)))
  ∧ live "session:s2" (snd (destroySession "s2" world3)) = Some (User_to_json alice).
Proof.
  vm_compute. repeat split; try reflexivity.
  intros H. repeat destruct H as [H|H]; try discriminate; exact H.
Qed.

Lemma destroySession_witness :
  destroySession "s2" world3
  = (Throw "Failed to destroy session: connection lost", record (DbDestroySession "s2") world3)
  ∧ ∃ w', destroySession "s2" world2 = (Ok tt, w')
          ∧ sessions w' = []
          ∧ trace w' = trace world2 ++ [DbDestroySession "s2"; RedisDel "session:s2"].
Proof.
  split.
  - apply (proj1 (destroySession_outcomes "s2" world3)). reflexivity.
  - destruct (proj2 (destroySession_outcomes "s2" world2) eq_refl)
      as (w' & Hrun & Hss & Htr & _).
    exists w'. split; [exact Hrun|]. split; [exact Hss|].
    apply Htr; [reflexivity|eexists; reflexivity].
Defined.

(** Bob is stored with a [Date] in [lockoutUntil]; what the cache gives back
    holds the ISO string of that date in its place, and so is not the user
    that was stored. *)
Lemma cached_date_comes_back_as_a_string :
  USE_REDIS world0 = true
  ∧ is_Some (redisClient world0)
  ∧ redis_fault world0 = None
  ∧ lockoutUntil bob = Some (DateObject 500)
  ∧ ∃ cached,
      fst (getCachedSession "s9" (snd (setCachedSession "s9" bob None world0)))
      = Ok (Some cached)
      ∧ lockoutUntil cached = Some (IsoString 500)
      ∧ cached ≠ bob.
Proof.
  split; [reflexivity|]. split; [by eexists|]. split; [reflexivity|].
  split; [reflexivity|]. eexists. split; [vm_compute; reflexivity|].
  split; [reflexivity|discriminate].
Qed.

(** Bob comes back with his counter and with the string of his lockout
    date; alice, who holds no date, comes back as she was stored. *)
Lemma session_cache_witness :
  (∃ w' cached, setCachedSession "s9" bob None world0 = (Ok tt, w')
                ∧ fst (getCachedSession "s9" w') = Ok (Some cached)
                ∧ failedAttempts cached = Some 5
                ∧ lockoutUntil cached = Some (IsoString 500))
  ∧ (∃ w', setCachedSession "s9" alice None world0 = (Ok tt, w')
           ∧ fst (getCachedSession "s9" w') = Ok (Some alice))
  ∧ getCachedSession "s9" (set_redisClient None world0)
    = (Ok None, set_redisClient None world0)
  ∧ setCachedSession "s9" alice None (set_redisClient None world0)
    = (Ok tt, set_redisClient None world0).
Proof.
  split; [|split].
  - destruct (proj1 (session_cache_roundtrip "s9" bob None world0))
      as (w' & cached & Hset & Hget & _ & _ & _ & _ & _ & _ & _ & _ & Hfa & Hlu & _);
      [eexists; reflexivity|reflexivity|simpl; lia|].
    exists w', cached. split; [exact Hset|]. split; [exact Hget|].
    split; [exact Hfa|]. by apply Hlu.
  - destruct (proj1 (session_cache_roundtrip "s9" alice None world0))
      as (w' & cached & Hset & Hget & Hrest);
      [eexists; reflexivity|reflexivity|simpl; lia|].
    exists w'. split; [exact Hset|]. rewrite Hget. do 2 f_equal.
    apply Hrest. by intros [t Ht].
  - apply (proj1 (proj2 (session_cache_roundtrip "s9" alice None
                           (set_redisClient None world0)))).
    reflexivity.
Defined.

(** The admin role seeded into [world0] holds a name, a description and no
    permission, whereas the default matrix gives admin all four. *)
Lemma seeded_roles_hold_no_permissions :
  roles world0 = []
  ∧ fst (initializeDefaultRoles world0) = Ok tt
  ∧ roles (snd (initializeDefaultRoles world0))
    = [ {| role_id := "r2"; role_name := "admin";
           role_description := Some "Administrator with all permissions";
           role_permissions := [] |};
        {| role_id := "r3"; role_name := "developer";
           role_description := Some "Developer with elevated permissions";
           role_permissions := [] |};
        {| role_id := "r4"; role_name := "editor";
           role_description := Some "Content editor";
           role_permissions := [] |};
        {| role_id := "r5"; role_name := "user";
           role_description := Some "Regular user with basic permissions";
           role_permissions := [] |} ]
  ∧ Obj.get "admin" defaultPermissions
    = Some [("create", true); ("read", true); ("write", true); ("delete", true)].
Proof. vm_compute. repeat split; reflexivity. Qed.

(** A stored role named Admin does not stand in for admin. *)
Example seeding_is_case_sensitive :
  map role_name (roles (snd (initializeDefaultRoles world0_Admin)))
  = ["Admin"; "admin"; "developer"; "editor"; "user"].
Proof. vm_compute. reflexivity. Qed.

Lemma initializeDefaultRoles_witness :
  ∃ w1, initializeDefaultRoles world0 = (Ok tt, w1)
        ∧ map (λ r, (role_name r, role_description r, role_permissions r)) (roles w1)
          = [("admin", Some "Administrator with all permissions", []);
             ("developer", Some "Developer with elevated permissions", []);
             ("editor", Some "Content editor", []);
             ("user", Some "Regular user with basic permissions", [])]
        ∧ map role_id (roles w1) = ["r2"; "r3"; "r4"; "r5"].
Proof.
  apply (proj1 (proj2 (initializeDefaultRoles_seeds_once world0 eq_refl))).
  reflexivity.
Defined.

Lemma sanitizePermissions_witness :
  ∃ defaults d,
    Obj.get "user" defaultPermissions = Some defaults
    ∧ Obj.get "write" defaults = Some d
    ∧ sanitizePermissions Object_prototype
        (setPermission "user" "write" (negb d) defaultPermissions)
      = Ok (Some [("user", [("write", negb d)])]).
Proof.
  apply (proj2 (proj2 (sanitizePermissions_minimal_diff Object_prototype))); simpl; tauto.
Defined.

(* ===================================================================== *)
(** * Further properties *)
(* ===================================================================== *)

(** ** Guards and failures *)

(** X1.  [createSession] without a user or a device identifier, and
    [validateSession] without a session identifier, throw before any call is
    made: the world, trace included, is as it was. *)
Theorem missing_identifiers_are_rejected
    (uid did : string) (ttl : option Z) (ext : option bool) (w : World) :
  (uid = "" ∨ did = "" →
   createSession uid did ttl ext w
   = (Throw "user_id and device_id are required to create a session", w))
  ∧ validateSession "" w
    = (Throw "Failed to validate session: Session ID is undefined", w).
Proof.
  split; [|reflexivity].
  intros [-> | ->]; unfold createSession; simpl; [reflexivity|].
  destruct (String.eqb uid ""); reflexivity.
Qed.

Lemma missing_identifiers_witness :
  createSession "u0" "" None None world0
  = (Throw "user_id and device_id are required to create a session", world0).
Proof.
  apply (proj1 (missing_identifiers_are_rejected "u0" "" None None world0)).
  right. reflexivity.
Defined.

Lemma getCache_total {T} `{Cacheable T} (key : string) (w : World) :
  ∃ r w', getCache (T:=T) key w = (Ok r, w') ∧ cacheOnly w w'.
Proof.
  unfold getCache, try_catch, bind, redis_get, command, ret.
  destruct (redisClient w) as [keys|] eqn:Hc; [|by eexists _, _].
  simpl. rewrite Hc. destruct (redis_fault w); [by eexists _, _|].
  destruct (keys !! key) as [[v d]|]; [|by eexists _, _].
  destruct (now w <? d); by eexists _, _.
Qed.

Lemma setCache_total {T} `{Cacheable T} (key : string) (v : T) (ex : option Z) (w : World) :
  ∃ w', setCache key v ex w = (Ok tt, w') ∧ cacheOnly w w'.
Proof.
  unfold setCache, try_catch, redis_set, command.
  destruct (redisClient w) as [keys|] eqn:Hc; [|by eexists].
  simpl. rewrite Hc. destruct (redis_fault w); [by eexists|].
  destruct (0 <? default 3600 ex); by eexists.
Qed.

Lemma clearCache_total (key : string) (w : World) :
  ∃ w', clearCache key w = (Ok tt, w') ∧ cacheOnly w w'.
Proof.
  unfold clearCache, try_catch, redis_del, command.
  destruct (redisClient w) as [keys|] eqn:Hc; [|by eexists].
  simpl. rewrite Hc. destruct (redis_fault w); by eexists.
Qed.

(** X2.  No operation of the session cache ever throws, whatever the state
    of the client: not connected, connected, or failing on every command.
    Each returns normally and changes neither the stored users, sessions
    and roles nor the clock. *)
Theorem session_cache_never_throws
    (sid : string) (user : User) (ex : option Z) (w : World) :
  (∃ r w', getCachedSession sid w = (Ok r, w') ∧ cacheOnly w w')
  ∧ (∃ w', setCachedSession sid user ex w = (Ok tt, w') ∧ cacheOnly w w')
  ∧ (∃ w', clearCachedSession sid w = (Ok tt, w') ∧ cacheOnly w w').
Proof.
  split; [apply getCache_total|]. split; [apply setCache_total|apply clearCache_total].
Qed.

(** ** [validateSession] between the cache and the store *)

Lemma cacheOnly_trans (w1 w2 w3 : World) :
  cacheOnly w1 w2 → cacheOnly w2 w3 → cacheOnly w1 w3.
Proof. unfold cacheOnly. intuition congruence. Qed.

Lemma cacheOnly_record (c : call) (w : World) : cacheOnly w (record c w).
Proof. by repeat split. Qed.

Lemma getCachedSession_cacheMiss (sid : string) (w : World) :
  cacheMiss sid w →
  USE_REDIS w = true →
  ∃ w1, getCachedSession sid w = (Ok None, w1) ∧ cacheOnly w w1.
Proof.
  intros Hmiss Huse. unfold getCachedSession.
  destruct (redisClient w) as [keys|] eqn:Hc.
  - rewrite getCache_enabled by (rewrite Hc; eauto).
    eexists. split; [|apply cacheOnly_record].
    destruct Hmiss as [Hoff|[Hlive|[e He]]];
      [congruence|rewrite Hlive; by destruct (redis_fault w)|by rewrite He].
  - rewrite getCache_disabled by done. by eexists.
Qed.

Lemma sessionOwner_cacheOnly (sid : string) (w w' : World) :
  cacheOnly w w' → sessionOwner sid w' = sessionOwner sid w.
Proof.
  intros (Hu & Hs & _ & _ & _ & _ & _ & Hn). unfold sessionOwner. by rewrite Hu, Hs, Hn.
Qed.

Lemma db_validateSession_up (sid : string) (w : World) :
  db_fault w = None →
  db_validateSession sid w = (Ok (sessionOwner sid w), record (DbValidateSession sid) w).
Proof.
  intros Hdb. unfold db_validateSession, sessionOwner. rewrite port_up by done. simpl.
  destruct (find _ (sessions w)) as [s|]; [|reflexivity].
  by destruct (now w <? expires s).
Qed.

Lemma validateSession_through_store (sid : string) (w : World) :
  sid ≠ "" →
  db_fault w = None →
  cacheMiss sid w →
  ∃ w', validateSession sid w = (Ok (sessionOwner sid w), w') ∧ cacheOnly w w'.
Proof.
  intros Hsid Hdb Hmiss.
  unfold validateSession, try_catch. rewrite truthy_nonempty by done. simpl.
  unfold bind at 1, privateEnv_USE_REDIS.
  destruct (USE_REDIS w) eqn:Huse.
  - destruct (getCachedSession_cacheMiss sid w Hmiss Huse) as (w1 & Hget & H1).
    unfold bind at 1. rewrite Hget.
    assert (Hdb1 : db_fault w1 = None) by (destruct H1 as (_ & _ & _ & _ & -> & _); done).
    unfold bind at 1. rewrite db_validateSession_up by done.
    rewrite (sessionOwner_cacheOnly sid w w1 H1).
    destruct (sessionOwner sid w) as [u|].
    + destruct (setCache_total ("session:" +:+ sid) u (Some (default 3600 None))
                  (record (DbValidateSession sid) w1)) as (w2 & Hset & H2).
      unfold bind, setCachedSession. rewrite Hset. eexists. split; [reflexivity|].
      eapply cacheOnly_trans; [exact H1|].
      eapply cacheOnly_trans; [apply cacheOnly_record|exact H2].
    + eexists. split; [reflexivity|].
      eapply cacheOnly_trans; [exact H1|apply cacheOnly_record].
  - unfold bind, ret. rewrite db_validateSession_up by done.
    destruct (sessionOwner sid w) as [u|];
      (eexists; split; [reflexivity|apply cacheOnly_record]).
Qed.

Lemma validateSession_hit (sid : string) (v : json) (w : World) :
  sid ≠ "" →
  USE_REDIS w = true →
  redis_fault w = None →
  live ("session:" +:+ sid) w = Some v →
  json_truthy v = true →
  validateSession sid w
  = (Ok (Some (User_of_json v)), record (RedisGet ("session:" +:+ sid)) w).
Proof.
  intros Hsid Huse Hf Hlive Hv.
  assert (Hc : is_Some (redisClient w)).
  { unfold live in Hlive. destruct (redisClient w); [eauto|discriminate]. }
  unfold validateSession, try_catch. rewrite truthy_nonempty by done. simpl.
  unfold bind, privateEnv_USE_REDIS. rewrite Huse.
  unfold getCachedSession. rewrite getCache_enabled by done.
  by rewrite Hf, Hlive, Hv.
Qed.

(** X3.  When the cache cannot answer (switched off, no live entry, or
    failing), [validateSession] of a non-empty identifier returns what the
    store says: the owner of the session if it exists and has not expired,
    [null] otherwise.  A failing cache never makes it throw, and the stored
    users and sessions are left as they were. *)
Theorem validateSession_answers_from_the_store (sid : string) (w : World) :
  sid ≠ "" →
  db_fault w = None →
  cacheMiss sid w →
  ∃ w', validateSession sid w = (Ok (sessionOwner sid w), w')
        ∧ users w' = users w ∧ sessions w' = sessions w.
Proof.
  intros Hsid Hdb Hmiss.
  destruct (validateSession_through_store sid w Hsid Hdb Hmiss) as (w' & Hrun & Hu & Hs & _).
  by exists w'.
Qed.

(** X4.  A live cache entry is returned at once: the only call made is the
    [GET] of the key, the store is not consulted, and so the answer is the
    cached user whether or not the store is reachable or still holds the
    session. *)
Theorem validateSession_cache_hit_bypasses_the_store (sid : string) (v : json) (w : World) :
  sid ≠ "" →
  USE_REDIS w = true →
  redis_fault w = None →
  live ("session:" +:+ sid) w = Some v →
  json_truthy v = true →
  ∃ w', validateSession sid w = (Ok (Some (User_of_json v)), w')
        ∧ trace w' = trace w ++ [RedisGet ("session:" +:+ sid)]
        ∧ users w' = users w ∧ sessions w' = sessions w.
Proof.
  intros Hsid Huse Hf Hlive Hv. eexists. split; [by apply validateSession_hit|done].
Qed.

(** X5.  A valid session that is not cached yet is answered by the store and
    written to the cache for 3600 seconds; the next [validateSession] is
    answered by the cache alone, with the copy of the user that JSON leaves:
    a [lockoutUntil] that was a [Date] is then the string of that date. *)
Theorem validateSession_populates_the_cache
    (sid : string) (s : Session) (u : User) (w : World) :
  sid ≠ "" →
  db_fault w = None →
  USE_REDIS w = true →
  is_Some (redisClient w) →
  redis_fault w = None →
  live ("session:" +:+ sid) w = None →
  find (has_session_id sid) (sessions w) = Some s →
  now w < expires s →
  find (has_id (user_id s)) (users w) = Some u →
  ∃ w1, validateSession sid w = (Ok (Some u), w1)
        ∧ trace w1 = trace w ++ [RedisGet ("session:" +:+ sid);
                                 DbValidateSession sid;
                                 RedisSet ("session:" +:+ sid) (User_to_json u) 3600]
        ∧ validateSession sid w1
          = (Ok (Some (JSON_copy u)), record (RedisGet ("session:" +:+ sid)) w1).
Proof.
  intros Hsid Hdb Huse [keys Hc] Hf Hlive Hs Hexp Hu.
  assert (Hown : sessionOwner sid w = Some u).
  { unfold sessionOwner. rewrite Hs.
    destruct (Z.ltb_spec (now w) (expires s)); [exact Hu|lia]. }
  assert (Hrun : validateSession sid w
                 = (Ok (Some u),
                    set_redisClient
                      (Some (<["session:" +:+ sid := (User_to_json u, now w + 3600 * 1000)]> keys))
                      (record (RedisSet ("session:" +:+ sid) (User_to_json u) 3600)
                         (record (DbValidateSession sid)
                            (record (RedisGet ("session:" +:+ sid)) w))))).
  { unfold validateSession, try_catch. rewrite truthy_nonempty by done. simpl.
    unfold bind at 1, privateEnv_USE_REDIS. rewrite Huse.
    unfold bind at 1, getCachedSession.
    rewrite getCache_enabled by (rewrite Hc; eauto). rewrite Hf, Hlive.
    unfold bind at 1. rewrite db_validateSession_up by done.
    change (sessionOwner sid (record (RedisGet ("session:" +:+ sid)) w))
      with (sessionOwner sid w). rewrite Hown.
    unfold bind, setCachedSession, setCache, try_catch, redis_set, command, ret.
    simpl. by rewrite Hc, Hf. }
  eexists. split; [exact Hrun|]. split.
  - simpl. by rewrite <- !app_assoc.
  - rewrite (validateSession_hit sid (User_to_json u)); try done.
    + by rewrite User_json_copy.
    + unfold live. simpl. rewrite lookup_insert_eq.
      destruct (Z.ltb_spec (now w) (now w + 3600 * 1000)); [reflexivity|lia].
Qed.

(** ** Ending a session *)

Lemma find_filter_out {A} (p : A → bool) (l : list A) :
  find p (List.filter (λ x, negb (p x)) l) = None.
Proof.
  induction l as [|x l IH]; simpl; [reflexivity|].
  destruct (p x) eqn:Hp; simpl; [exact IH|by rewrite Hp].
Qed.

Lemma sessionOwner_destroyed (sid : string) (w w' : World) :
  sessions w' = List.filter (λ s, negb (has_session_id sid s)) (sessions w) →
  sessionOwner sid w' = None.
Proof. intros Hs. unfold sessionOwner. by rewrite Hs, find_filter_out. Qed.

(** X6.  After [destroySession], with the store and the cache answering,
    [validateSession] of that identifier returns [null]: the session is gone
    from the store and its entry from the cache. *)
Theorem destroyed_session_no_longer_validates (sid : string) (w : World) :
  sid ≠ "" →
  db_fault w = None →
  redis_fault w = None →
  ∃ w1 w2, destroySession sid w = (Ok tt, w1)
           ∧ validateSession sid w1 = (Ok None, w2).
Proof.
  intros Hsid Hdb Hf.
  assert (Hrun : ∃ w1, destroySession sid w = (Ok tt, w1)
                       ∧ db_fault w1 = None
                       ∧ sessions w1 = List.filter (λ s, negb (has_session_id sid s)) (sessions w)
                       ∧ cacheMiss sid w1).
  { unfold destroySession, try_catch, bind, db_destroySession.
    rewrite port_up by done. simpl. unfold privateEnv_USE_REDIS. simpl.
    destruct (USE_REDIS w) eqn:Huse.
    - unfold clearCachedSession, clearCache, try_catch, redis_del, command. simpl.
      destruct (redisClient w) as [keys|] eqn:Hc; simpl.
      + rewrite Hf. eexists. split; [reflexivity|]. simpl.
        split; [done|]. split; [done|]. right; left.
        unfold live. simpl. by rewrite lookup_delete_eq.
      + eexists. split; [reflexivity|]. simpl.
        split; [done|]. split; [done|]. right; left.
        unfold live. simpl. by rewrite Hc.
    - eexists. split; [reflexivity|]. simpl.
      split; [done|]. split; [done|]. by left. }
  destruct Hrun as (w1 & Hrun & Hdb1 & Hs1 & Hmiss).
  destruct (validateSession_through_store sid w1 Hsid Hdb1 Hmiss) as (w2 & Hval & _).
  rewrite (sessionOwner_destroyed sid w w1 Hs1) in Hval.
  by exists w1, w2.
Qed.

(** X7.  [logOut] deletes the session from the store and asks nothing of the
    cache.  An entry cached for that session therefore outlives the logout:
    while it is live, [validateSession] still answers with the cached
    user. *)
Theorem logOut_leaves_the_cache (sid : string) (w : World) :
  sid ≠ "" →
  db_fault w = None →
  ∃ w1, logOut sid w = (Ok tt, w1)
        ∧ sessionOwner sid w1 = None
        ∧ redisClient w1 = redisClient w
        ∧ trace w1 = trace w ++ [DbDestroySession sid]
        ∧ ∀ v, USE_REDIS w = true →
               redis_fault w = None →
               live ("session:" +:+ sid) w = Some v →
               json_truthy v = true →
               fst (validateSession sid w1) = Ok (Some (User_of_json v)).
Proof.
  intros Hsid Hdb. unfold logOut, try_catch, db_destroySession.
  rewrite port_up by done. eexists. split; [reflexivity|].
  split; [by apply (sessionOwner_destroyed sid w)|].
  split; [reflexivity|]. split; [reflexivity|].
  intros v Huse Hf Hlive Hv.
  by rewrite (validateSession_hit sid v).
Qed.

(** ** Users and logins *)

Lemma find_app_r {A} (p : A → bool) (l l' : list A) :
  find p l = None → find p (l ++ l') = find p l'.
Proof.
  induction l as [|x l IH]; simpl; [done|].
  destruct (p x); [discriminate|exact IH].
Qed.

Lemma update_first_map {A B} (key : A → B) (p : A → bool) (f : A → A) (l : list A) :
  (∀ x, key (f x) = key x) →
  map key (update_first p f l) = map key l.
Proof.
  intros Hkey. induction l as [|x l IH]; simpl; [reflexivity|].
  destruct (p x); simpl; [by rewrite Hkey|by rewrite IH].
Qed.

Section FurtherAuthProperties.

Context (argon2 : Argon2).

(** X8.  When [verify] itself fails, [login] throws that error unchanged and
    writes nothing: the attempt is not counted as a failed one. *)
Theorem verify_failure_is_not_counted
    (e plain message : string) (w : World) (u : User) :
  db_fault w = None →
  find (has_email e) (users w) = Some u →
  truthy_string (password u) = true →
  unlockedAt (now w) u →
  verifies argon2 u plain = Throw message →
  ∃ w', login argon2 e plain w = (Throw message, w')
        ∧ users w' = users w
        ∧ trace w' = trace w ++ [DbGetUserByEmail e;
                                 Argon2Verify (default "" (password u)) plain].
Proof.
  intros Hdb Hfind Hpw Hun Hv. rewrite (login_unlocked argon2 e plain w u) by done.
  unfold try_catch, bind, argon2_verify. unfold verifies in Hv. rewrite Hv.
  eexists. split; [reflexivity|]. simpl. split; [done|]. by rewrite <- app_assoc.
Qed.

Lemma login_footprint (e plain : string) (w : World) :
  sessions (snd (login argon2 e plain w)) = sessions w
  ∧ roles (snd (login argon2 e plain w)) = roles w
  ∧ redisClient (snd (login argon2 e plain w)) = redisClient w
  ∧ (users (snd (login argon2 e plain w)) = users w
     ∨ ∃ u p, find (has_email e) (users w) = Some u
              ∧ users (snd (login argon2 e plain w))
                = update_first (has_id (_id u)) (apply_patch p) (users w)).
Proof.
  unfold login, bind, db_getUserByEmail, port. simpl.
  destruct (db_fault w) eqn:Hdb; [simpl; tauto|].
  destruct (find (has_email e) (users w)) as [u|] eqn:Hfind; [|simpl; tauto].
  destruct (truthy_string (password u)); simpl; [|tauto].
  match goal with
  | |- context [if ?c then throw _ else _] => destruct c; [simpl; tauto|]
  end.
  unfold try_catch, bind, argon2_verify, db_updateUserAttributes, port, Date_now.
  simpl. destruct (verify argon2 _ plain) as [[|]|err]; simpl.
  - rewrite Hdb. simpl. repeat split; try done. right. by eexists _, _.
  - destruct (5 <=? _); simpl; rewrite Hdb; simpl;
      (repeat split; try done; right; by eexists _, _).
  - tauto.
Qed.

(** X9.  Whatever its outcome, [login] leaves sessions, roles and the cache
    alone, and among the users changes at most the one it looked up, of which
    it never changes the identifier, the email or the password: it creates
    no user, deletes none, and unique identifiers stay unique. *)
Theorem login_changes_one_user_at_most (e plain : string) (w : World) :
  let w' := snd (login argon2 e plain w) in
  sessions w' = sessions w
  ∧ roles w' = roles w
  ∧ redisClient w' = redisClient w
  ∧ map _id (users w') = map _id (users w)
  ∧ map (λ u : User, email u) (users w') = map (λ u : User, email u) (users w)
  ∧ map (λ u : User, password u) (users w') = map (λ u : User, password u) (users w)
  ∧ (users w' = users w
     ∨ ∃ u p, find (has_email e) (users w) = Some u
              ∧ users w' = update_first (has_id (_id u)) (apply_patch p) (users w)).
Proof.
  intros w'. destruct (login_footprint e plain w) as (Hs & Hr & Hc & Hu).
  split; [exact Hs|]. split; [exact Hr|]. split; [exact Hc|].
  assert (Hmaps : ∀ B (key : User → B), (∀ p x, key (apply_patch p x) = key x) →
                    map key (users w') = map key (users w)).
  { intros B key Hkey. destruct Hu as [Hu|(u & p & _ & Hu)]; unfold w'; rewrite Hu;
      [reflexivity|by apply update_first_map]. }
  split; [by apply Hmaps|]. split; [by apply Hmaps|]. split; [by apply Hmaps|exact Hu].
Qed.

(** X10.  [createUser] stores the digest argon2 returns for the password and
    never the password itself: the record handed to the port carries the
    digest.  Without a password, or with an empty one, argon2 is not called
    and the user is stored without password.  If hashing fails the call
    fails with the prefixed message and the port is not called. *)
Theorem createUser_stores_the_digest (userData : UserFields) (w : World) :
  db_fault w = None →
  (∀ plain digest,
     password userData = Some plain → plain ≠ "" →
     hash argon2 plain = Ok digest →
     ∃ u w', createUser argon2 userData w = (Ok u, w')
             ∧ password u = Some digest
             ∧ ∃ data, trace w' = trace w ++ [Argon2Hash plain; DbCreateUser data]
                       ∧ password data = Some digest)
  ∧ (truthy_string (password userData) = false →
     ∃ u w', createUser argon2 userData w = (Ok u, w')
             ∧ password u = None
             ∧ ∃ data, trace w' = trace w ++ [DbCreateUser data])
  ∧ (∀ plain message,
       password userData = Some plain → plain ≠ "" →
       hash argon2 plain = Throw message →
       createUser argon2 userData w
       = (Throw ("Failed to create user: " +:+ message), record (Argon2Hash plain) w)).
Proof.
  intros Hdb. split; [|split].
  - intros plain digest Hp Hne Hh.
    unfold createUser, try_catch, bind, argon2_hash, db_createUser, ret.
    rewrite Hp, truthy_nonempty by done. simpl. rewrite Hh.
    rewrite port_up by done. simpl.
    eexists _, _. split; [reflexivity|]. simpl. split; [reflexivity|].
    eexists. split; [by rewrite <- app_assoc|reflexivity].
  - intros Hp.
    unfold createUser, try_catch, bind, argon2_hash, db_createUser, ret.
    rewrite Hp. rewrite port_up by done. simpl.
    eexists _, _. split; [reflexivity|]. simpl. split; [reflexivity|].
    by eexists.
  - intros plain message Hp Hne Hh.
    unfold createUser, try_catch, bind, argon2_hash, throw.
    rewrite Hp, truthy_nonempty by done. simpl. by rewrite Hh.
Qed.

(** X11.  A user created with an email no stored user has, and with a
    password, can log in with that password on a fresh account, provided
    argon2 verifies the digests it produces: [login] returns the user
    [createUser] returned.  A password argon2 does not verify is refused
    with the generic message. *)
Theorem created_user_can_log_in
    (userData : UserFields) (e plain digest : string) (w : World) :
  db_fault w = None →
  email userData = Some e →
  password userData = Some plain →
  plain ≠ "" →
  hash argon2 plain = Ok digest →
  digest ≠ "" →
  verify argon2 digest plain = Ok true →
  find (has_email e) (users w) = None →
  ∃ u w1, createUser argon2 userData w = (Ok u, w1)
          ∧ (∃ w2, login argon2 e plain w1 = (Ok (Some u), w2))
          ∧ ∀ other, verify argon2 digest other = Ok false →
              fst (login argon2 e other w1) = Throw "Invalid credentials. Please try again.".
Proof.
  intros Hdb He Hp Hne Hh Hd Hv Hfree.
  assert (Hrun : ∃ u w1, createUser argon2 userData w = (Ok u, w1)
                         ∧ db_fault w1 = None
                         ∧ users w1 = users w ++ [u]
                         ∧ email u = Some e ∧ password u = Some digest
                         ∧ failedAttempts u = Some 0 ∧ lockoutUntil u = None).
  { unfold createUser, try_catch, bind, argon2_hash, db_createUser, ret.
    rewrite Hp, truthy_nonempty by done. simpl. rewrite Hh.
    rewrite port_up by done. simpl.
    eexists _, _. split; [reflexivity|]. simpl. by rewrite He. }
  destruct Hrun as (u & w1 & Hrun & Hdb1 & Hus & Hue & Hup & Hfa & Hlu).
  assert (Hfind : find (has_email e) (users w1) = Some u).
  { rewrite Hus, find_app_r by done. simpl. unfold has_email.
    by rewrite Hue, String.eqb_refl. }
  assert (Hpw : truthy_string (password u) = true)
    by (rewrite Hup; by apply truthy_nonempty).
  assert (Hun : unlockedAt (now w1) u) by (intros t Ht; congruence).
  exists u, w1. split; [exact Hrun|]. split.
  - eexists. apply login_success; try done. unfold verifies. by rewrite Hup.
  - intros other Ho. rewrite (login_wrong_password argon2 e other w1 u); try done.
    + unfold verifies. by rewrite Hup.
    + rewrite Hfa. simpl. lia.
Qed.

End FurtherAuthProperties.

(** ** The lockout policy over several attempts *)

Section LockoutSequences.

Context (argon2 : Argon2).

(** X12.  Up to four consecutive failures followed by the right password:
    the login succeeds and the stored counter is back at 0.  The user object
    [login] returns is the one read before the reset, so it still shows the
    number of failures. *)
Theorem failures_below_the_threshold_are_forgiven
    (e plain : string) (u : User) (l : list (Z * string)) (t : Z) (w : World) :
  db_fault w = None →
  List.NoDup (map _id (users w)) →
  find (has_email e) (users w) = Some u →
  truthy_string (password u) = true →
  or_zero (failedAttempts u) = 0 →
  lockoutUntil u = None →
  Forall (λ a, verifies argon2 u (snd a) = Ok false) l →
  (length l ≤ 4)%nat →
  verifies argon2 u plain = Ok true →
  ∃ u' w', login argon2 e plain (set_now t (attempts argon2 e l w)) = (Ok (Some u'), w')
           ∧ or_zero (failedAttempts u') = Z.of_nat (length l)
           ∧ ∃ stored, find (has_email e) (users w') = Some stored
                       ∧ failedAttempts stored = Some 0
                       ∧ lockoutUntil stored = None.
Proof.
  intros Hdb Hnd Hfind Hpw Hn Hl Hall Hlen Hv.
  assert (Hc : counting e u 0 w).
  { split; [done|]. split; [done|]. exists u. by repeat split. }
  apply (failures_count argon2 e u l Hpw Hall 0 w) in Hc; [|lia|lia].
  destruct Hc as (Hdb' & Hnd' & u' & Hfind' & Hp' & Hn' & Hl').
  exists u'. eexists. split.
  - apply login_success; simpl; try done.
    + by rewrite Hp'.
    + intros x Hx. congruence.
    + unfold verifies. by rewrite Hp'.
  - split; [by rewrite Hn'|].
    exists (apply_patch resetPatch u'). split; [|done].
    unfold afterAttempt. simpl. by apply find_email_update.
Qed.

Lemma fifth_failure_locks
    (e : string) (u : User) (l : list (Z * string)) (a : Z * string) (w : World) :
  db_fault w = None →
  List.NoDup (map _id (users w)) →
  find (has_email e) (users w) = Some u →
  truthy_string (password u) = true →
  or_zero (failedAttempts u) = 0 →
  lockoutUntil u = None →
  Forall (λ a, verifies argon2 u (snd a) = Ok false) l →
  length l = 4%nat →
  verifies argon2 u (snd a) = Ok false →
  let w5 := attempts argon2 e (l ++ [a]) w in
  db_fault w5 = None
  ∧ List.NoDup (map _id (users w5))
  ∧ ∃ u5, find (has_email e) (users w5) = Some u5
          ∧ password u5 = password u
          ∧ failedAttempts u5 = Some 5
          ∧ lockoutUntil u5 = Some (DateObject (fst a + 30 * 60 * 1000)).
Proof.
  intros Hdb Hnd Hfind Hpw Hn Hl Hall Hlen Ha w5.
  assert (Hc : counting e u 0 w).
  { split; [done|]. split; [done|]. exists u. by repeat split. }
  apply (failures_count argon2 e u l Hpw Hall 0 w) in Hc; [|lia|lia].
  destruct Hc as (Hdb4 & Hnd4 & u4 & Hfind4 & Hp4 & Hn4 & Hl4).
  unfold w5. rewrite attempts_snoc. unfold attemptAt.
  rewrite (login_wrong_password_locks argon2 e (snd a)
             (set_now (fst a) (attempts argon2 e l w)) u4); try done.
  - unfold afterAttempt. simpl. split; [done|]. split.
    + by rewrite (update_first_ids _id).
    + eexists. split; [by apply find_email_update|]. simpl.
      split; [done|]. split; [|done]. rewrite Hn4, Hlen. reflexivity.
  - by rewrite Hp4.
  - intros x Hx. simpl. congruence.
  - unfold verifies. by rewrite Hp4.
  - rewrite Hn4, Hlen. simpl. lia.
Qed.

(** X13.  The lockout ends by the clock alone and does not reset the
    counter.  Once the 30 minutes have passed, the right password logs in
    and resets the account; a wrong one is the sixth failure and locks the
    account again at once, for 30 minutes from that attempt. *)
Theorem after_the_lockout_window
    (e : string) (u : User) (l : list (Z * string)) (a5 : Z * string)
    (t : Z) (plain : string) (w : World) :
  db_fault w = None →
  List.NoDup (map _id (users w)) →
  find (has_email e) (users w) = Some u →
  truthy_string (password u) = true →
  or_zero (failedAttempts u) = 0 →
  lockoutUntil u = None →
  Forall (λ a, verifies argon2 u (snd a) = Ok false) l →
  length l = 4%nat →
  verifies argon2 u (snd a5) = Ok false →
  fst a5 + 30 * 60 * 1000 ≤ t →
  let w5 := set_now t (attempts argon2 e (l ++ [a5]) w) in
  (verifies argon2 u plain = Ok true →
   ∃ u' w', login argon2 e plain w5 = (Ok (Some u'), w')
            ∧ ∃ stored, find (has_email e) (users w') = Some stored
                        ∧ failedAttempts stored = Some 0
                        ∧ lockoutUntil stored = None)
  ∧ (verifies argon2 u plain = Ok false →
     ∃ w', login argon2 e plain w5
           = (Throw "Account is temporarily locked due to too many failed attempts. Please try again later.", w')
           ∧ ∃ stored, find (has_email e) (users w') = Some stored
                       ∧ failedAttempts stored = Some 6
                       ∧ lockoutUntil stored = Some (DateObject (t + 30 * 60 * 1000))).
Proof.
  intros Hdb Hnd Hfind Hpw Hn Hl Hall Hlen Ha Ht w5.
  destruct (fifth_failure_locks e u l a5 w) as (Hdb5 & Hnd5 & u5 & Hfind5 & Hp5 & Hn5 & Hl5);
    try done.
  assert (Hun : unlockedAt (now w5) u5).
  { intros x Hx. unfold w5. simpl. rewrite Hl5 in Hx. injection Hx as <-. exact Ht. }
  assert (Hpw5 : truthy_string (password u5) = true) by (by rewrite Hp5).
  split; intros Hv.
  - exists u5. eexists. split.
    + apply login_success; try done. unfold verifies. by rewrite Hp5.
    + exists (apply_patch resetPatch u5). split; [|done].
      unfold afterAttempt. simpl. by apply find_email_update.
  - eexists. split.
    + apply (login_wrong_password_locks argon2 e plain w5 u5); try done.
      * unfold verifies. by rewrite Hp5.
      * rewrite Hn5. simpl. lia.
    + eexists. split; [unfold afterAttempt; simpl; by apply find_email_update|].
      simpl. rewrite Hn5. by split.
Qed.


End LockoutSequences.

(** X15.  [checkUser] looks the user up by email whenever an email is
    given, whatever identifier comes with it; by identifier when the email
    is missing or empty; and answers [null] without asking the store when
    both are.  A failure of the store comes back behind the method's
    prefix. *)
Theorem checkUser_prefers_the_email (query : UserQuery) (w : World) :
  (∀ e, query_email query = Some e → e ≠ "" → db_fault w = None →
     checkUser query w
     = (Ok (find (has_email e) (users w)), record (DbGetUserByEmail e) w))
  ∧ (∀ id, truthy_string (query_email query) = false →
       query_user_id query = Some id → id ≠ "" → db_fault w = None →
       checkUser query w
       = (Ok (find (has_id id) (users w)), record (DbGetUserById id) w))
  ∧ (truthy_string (query_email query) = false →
     truthy_string (query_user_id query) = false →
     checkUser query w = (Ok None, w))
  ∧ (∀ cause, db_fault w = Some cause →
       truthy_string (query_email query) = true
       ∨ truthy_string (query_user_id query) = true →
       fst (checkUser query w) = Throw ("Failed to check user: " +:+ cause)).
Proof.
  repeat split.
  - intros e He Hne Hdb. unfold checkUser, try_catch, db_getUserByEmail.
    rewrite He, truthy_nonempty by done. simpl. by rewrite port_up.
  - intros id He Hid Hne Hdb. unfold checkUser, try_catch, db_getUserById.
    rewrite He, Hid, truthy_nonempty by done. simpl. by rewrite port_up.
  - intros He Hid. unfold checkUser, try_catch. by rewrite He, Hid.
  - intros cause Hdb Hsome. unfold checkUser, try_catch, db_getUserByEmail, db_getUserById.
    destruct (truthy_string (query_email query)).
    + by rewrite (port_down _ _ _ cause).
    + destruct Hsome as [?|Hid]; [discriminate|]. rewrite Hid.
      by rewrite (port_down _ _ _ cause).
Qed.

(** ** One session per device *)

Lemma find_weaker {A} (p q : A → bool) (l : list A) :
  (∀ x, q x = true → p x = true) → find p l = None → find q l = None.
Proof.
  intros Hpq. induction l as [|x l IH]; simpl; [done|].
  destruct (p x) eqn:Hp; [discriminate|].
  destruct (q x) eqn:Hq; [|exact IH]. apply Hpq in Hq. congruence.
Qed.

Lemma find_absent_key {A} (key : A → string) (k : string) (l : list A) :
  ¬ In k (map key l) → find (λ x, String.eqb (key x) k) l = None.
Proof.
  induction l as [|x l IH]; simpl; [done|]. intros Hnot.
  destruct (String.eqb_spec (key x) k) as [Heq|_]; [|apply IH; tauto].
  exfalso. apply Hnot. by left.
Qed.

Lemma find_none_filter {A} (p : A → bool) (l : list A) :
  find p l = None → List.filter p l = [].
Proof.
  induction l as [|x l IH]; simpl; [done|].
  destruct (p x); [discriminate|exact IH].
Qed.

Lemma update_first_app_r {A} (p : A → bool) (f : A → A) (l l' : list A) :
  find p l = None → update_first p f (l ++ l') = l ++ update_first p f l'.
Proof.
  induction l as [|x l IH]; simpl; [done|].
  destruct (p x); [discriminate|]. intros H. by rewrite IH.
Qed.

(** X16.  Two calls of [createSession] for the same user and device, the
    second made while the session the first created is still running, add
    one session between them: the second call returns the identifier of the
    first and moves its expiry to the ttl it asked for, counted from its own
    instant.  The sessions of the pair are then the ones stored before, all
    of them expired and none removed, followed by that one; it is the only
    session of the pair when none was stored before. *)
Theorem createSession_twice_keeps_one_session
    (uid did : string) (ttl1 ttl2 : option Z) (ext1 ext2 : option bool)
    (t : Z) (w : World) :
  let requested1 :=
    if default false ext1 then default 3600000 ttl1 * 2 else default 3600000 ttl1 in
  let requested2 :=
    if default false ext2 then default 3600000 ttl2 * 2 else default 3600000 ttl2 in
  db_fault w = None →
  uid ≠ "" →
  did ≠ "" →
  find (λ s, session_of uid did s && (now w <? expires s)) (sessions w) = None →
  ¬ In (fresh_id "s" (next_id w)) (map session_id (sessions w)) →
  now w ≤ t →
  t < now w + requested1 →
  ∃ s1 w1 s2 w2,
    createSession uid did ttl1 ext1 w = (Ok s1, w1)
    ∧ createSession uid did ttl2 ext2 (set_now t w1) = (Ok s2, w2)
    ∧ session_id s2 = session_id s1
    ∧ expires s2 = t + requested2
    ∧ sessions w1 = sessions w ++ [s1]
    ∧ sessions w2 = sessions w ++ [s2]
    ∧ Forall (λ s, expires s ≤ now w)
        (List.filter (session_of uid did) (sessions w))
    ∧ List.filter (session_of uid did) (sessions w2)
      = List.filter (session_of uid did) (sessions w) ++ [s2]
    ∧ (find (session_of uid did) (sessions w) = None →
       List.filter (session_of uid did) (sessions w2) = [s2]).
Proof.
  intros requested1 requested2 Hdb Hu Hd Hnone Hfresh Hle Hlt.
  remember {| session_id := fresh_id "s" (next_id w); user_id := uid;
              device_id := did; expires := now w + requested1 |} as s1 eqn:Hs1.
  assert (Hmatch : session_of uid did s1 = true).
  { unfold session_of. rewrite Hs1. cbn [user_id device_id]. by rewrite !String.eqb_refl. }
  assert (Hid : has_session_id (session_id s1) s1 = true) by apply String.eqb_refl.
  assert (Hid1 : session_id s1 = fresh_id "s" (next_id w)) by (by rewrite Hs1).
  assert (Hexp : expires s1 = now w + requested1) by (by rewrite Hs1).
  assert (Hnone' : find (λ s, session_of uid did s && (t <? expires s)) (sessions w) = None).
  { eapply find_weaker; [|exact Hnone]. intros x Hx.
    apply andb_true_iff in Hx as [H1 H2]. rewrite H1. simpl.
    apply Z.ltb_lt in H2. apply Z.ltb_lt. lia. }
  assert (Habsent : find (has_session_id (session_id s1)) (sessions w) = None).
  { rewrite Hid1. by apply (find_absent_key session_id). }
  exists s1,
    (set_next_id (N.succ (next_id w))
       (set_sessions (sessions w ++ [s1])
          (record (DbCreateSession uid did requested1)
             (record (DbGetActiveSessionByDeviceId uid did) w)))).
  exists (set_expires (t + requested2) s1). eexists.
  split; [|split].
  - rewrite createSession_outcome by done. cbv zeta. rewrite Hnone.
    unfold db_createSession. rewrite port_up by done. by rewrite Hs1.
  - rewrite createSession_outcome by done. cbv zeta.
    cbn [sessions set_now set_next_id set_sessions record now].
    rewrite find_app_r by exact Hnone'.
    cbn [find]. rewrite Hmatch, Hexp. cbn [andb].
    destruct (Z.ltb_spec t (now w + requested1)) as [_|?]; [|lia].
    unfold db_updateSessionExpiry. rewrite port_up by done.
    cbn [sessions set_now set_next_id set_sessions record now].
    rewrite find_app_r by exact Habsent.
    cbn [find]. rewrite Hid. reflexivity.
  - split; [reflexivity|]. split; [reflexivity|]. split; [reflexivity|].
    cbn [sessions set_now set_next_id set_sessions record].
    rewrite update_first_app_r by exact Habsent.
    cbn [update_first]. rewrite Hid.
    assert (Hmatch2 : ∀ x, session_of uid did (set_expires x s1) = true)
      by (intros x; exact Hmatch).
    split; [reflexivity|]. split; [|split].
    + apply List.Forall_forall. intros s Hs. apply filter_In in Hs as [Hin Hs].
      apply (find_none _ _ Hnone) in Hin. rewrite Hs in Hin. simpl in Hin.
      apply Z.ltb_ge in Hin. exact Hin.
    + rewrite List.filter_app. cbn [List.filter]. by rewrite Hmatch2.
    + intros Hpair. rewrite List.filter_app. cbn [List.filter]. rewrite Hmatch2.
      rewrite (find_none_filter _ _ Hpair). reflexivity.
Qed.

(** ** The session cache, entry by entry *)

Lemma session_key_inj (a b : string) : "session:" +:+ a = "session:" +:+ b → a = b.
Proof. intros H. injection H as H. exact H. Qed.

(** What [getCachedSession] answers, read off the world. *)
Lemma getCachedSession_answer (sid : string) (w : World) :
  fst (getCachedSession sid w)
  = Ok (match redis_fault w, live ("session:" +:+ sid) w with
        | None, Some v => if json_truthy v then Some (User_of_json v) else None
        | _, _ => None
        end).
Proof.
  unfold getCachedSession. destruct (redisClient w) as [keys|] eqn:Hc.
  - by rewrite getCache_enabled by (rewrite Hc; eauto).
  - rewrite getCache_disabled by done. unfold live. rewrite Hc.
    by destruct (redis_fault w).
Qed.

(** X17.  After [clearCachedSession], the client being connected and
    answering, [getCachedSession] of that identifier returns [null],
    whatever had been cached before. *)
Theorem cleared_session_is_not_cached (sid : string) (w : World) :
  is_Some (redisClient w) →
  redis_fault w = None →
  ∃ w', clearCachedSession sid w = (Ok tt, w')
        ∧ fst (getCachedSession sid w') = Ok None.
Proof.
  intros [keys Hc] Hf.
  unfold clearCachedSession, clearCache, try_catch, redis_del, command.
  rewrite Hc. simpl. rewrite Hc, Hf.
  eexists. split; [reflexivity|].
  rewrite getCachedSession_answer. unfold live. simpl.
  by rewrite Hf, lookup_delete_eq.
Qed.

(** X18.  Caching or clearing one session does not change what the cache
    answers for another. *)
Theorem session_cache_entries_are_independent
    (sid other : string) (user : User) (ex : option Z) (w : World) :
  sid ≠ other →
  fst (getCachedSession other (snd (setCachedSession sid user ex w)))
  = fst (getCachedSession other w)
  ∧ fst (getCachedSession other (snd (clearCachedSession sid w)))
    = fst (getCachedSession other w).
Proof.
  intros Hne.
  assert (Hk : "session:" +:+ sid ≠ "session:" +:+ other)
    by (intros H; by apply session_key_inj in H).
  rewrite !getCachedSession_answer. split.
  - unfold setCachedSession, setCache, try_catch, redis_set, command.
    destruct (redisClient w) as [keys|] eqn:Hc; [|reflexivity].
    simpl. rewrite Hc. destruct (redis_fault w) eqn:Hf; [by simpl; rewrite Hf|].
    destruct (0 <? default 3600 ex); simpl; rewrite Hf; [|reflexivity].
    unfold live. simpl. rewrite Hc. by rewrite lookup_insert_ne.
  - unfold clearCachedSession, clearCache, try_catch, redis_del, command.
    destruct (redisClient w) as [keys|] eqn:Hc; [|reflexivity].
    simpl. rewrite Hc. destruct (redis_fault w) eqn:Hf; simpl; rewrite Hf; [reflexivity|].
    unfold live. simpl. rewrite Hc. by rewrite lookup_delete_ne.
Qed.

(** X20.  [initializeRedis] never throws.  Starting without a client, the
    cache ends up enabled exactly when caching is configured and the
    connection succeeds; a failed connection leaves it disabled. *)
Theorem initializeRedis_outcome
    (server : Result (gmap string (json * Z))) (w : World) :
  redisClient w = None →
  ∃ w', initializeRedis server w = (Ok tt, w')
        ∧ (isRedisEnabled w' = true
           ↔ USE_REDIS w = true ∧ ∃ keys, server = Ok keys)
        ∧ users w' = users w ∧ sessions w' = sessions w.
Proof.
  intros Hc. unfold initializeRedis, bind, privateEnv_USE_REDIS, isRedisEnabled.
  destruct (USE_REDIS w) eqn:Huse; simpl.
  - destruct server as [keys|message]; (eexists; split; [reflexivity|]); simpl.
    + split; [|done]. split; [intros _; split; [done|by eexists]|done].
    + split; [|done]. split; [discriminate|]. intros [_ [keys H]]. discriminate.
  - eexists. split; [reflexivity|]. split; [|done]. rewrite Hc. simpl.
    split; [discriminate|]. intros [H _]. discriminate.
Qed.

(** ** [sanitizePermissions] on any matrix *)

Lemma Obj_define_fresh {V} (k : string) (v : V) (o : Obj.t V) :
  ¬ In k (Obj.keys o) → Obj.define k v o = o ++ [(k, v)].
Proof.
  induction o as [|[k' v'] o IH]; simpl; [done|]. intros Hnot.
  destruct (String.eqb_spec k' k) as [->|_]; [tauto|]. rewrite IH; [done|tauto].
Qed.

Lemma Obj_get_absent {V} (k : string) (o : Obj.t V) :
  ¬ In k (Obj.keys o) → Obj.get k o = None.
Proof.
  induction o as [|[k' v'] o IH]; simpl; [done|]. intros Hnot.
  destruct (String.eqb_spec k' k) as [->|_]; [tauto|]. apply IH. tauto.
Qed.

Lemma Obj_delete_absent {V} (k : string) (o : Obj.t V) :
  ¬ In k (Obj.keys o) → Obj.delete k o = o.
Proof.
  induction o as [|[k' v'] o IH]; simpl; [done|]. intros Hnot.
  destruct (String.eqb_spec k' k) as [->|_]; [tauto|]. rewrite IH; [done|tauto].
Qed.

Lemma Obj_set_fresh {V} (k : string) (v : V) (o : Obj.t V) :
  k ≠ "__proto__" → ¬ In k (Obj.keys o) → Obj.set k v o = o ++ [(k, v)].
Proof. intros Hk Hnot. rewrite Obj_set_define by done. by apply Obj_define_fresh. Qed.

(** Assigning to [__proto__] leaves an object without that own key as it
    is. *)
Lemma Obj_set_proto {V} (v : V) (o : Obj.t V) :
  ¬ In "__proto__" (Obj.keys o) → Obj.set "__proto__" v o = o.
Proof. intros Hnot. unfold Obj.set. simpl. by rewrite Obj_get_absent. Qed.

Lemma Obj_get_last {V} (k : string) (v : V) (o : Obj.t V) :
  ¬ In k (Obj.keys o) → Obj.get k (o ++ [(k, v)]) = Some v.
Proof.
  induction o as [|[k' v'] o IH]; simpl; intros Hnot.
  - by rewrite String.eqb_refl.
  - destruct (String.eqb_spec k' k) as [->|_]; [tauto|]. apply IH. tauto.
Qed.

Lemma Obj_delete_last {V} (k : string) (v : V) (o : Obj.t V) :
  ¬ In k (Obj.keys o) → Obj.delete k (o ++ [(k, v)]) = o.
Proof.
  induction o as [|[k' v'] o IH]; simpl; intros Hnot.
  - by rewrite String.eqb_refl.
  - destruct (String.eqb_spec k' k) as [->|_]; [tauto|]. rewrite IH; [done|tauto].
Qed.

Lemma Obj_keys_app {V} (o o' : Obj.t V) : Obj.keys (o ++ o') = Obj.keys o ++ Obj.keys o'.
Proof. apply map_app. Qed.


Section SanitizeAnyMatrix.

Context (inherited : Prototype).

Lemma sanitizeRole_closed (r : string) (perms : Obj.t bool) :
  (perms = [] ∨ is_Some (Obj.get r defaultPermissions)) →
  List.NoDup (Obj.keys perms) →
  ∀ acc, (∀ p, In p (Obj.keys perms) → ¬ In p (Obj.keys acc)) →
    sanitizeRole inherited r perms acc = Ok (acc ++ List.filter (differs r) perms).
Proof.
  intros Hknown. induction perms as [|[p v] perms IH]; intros Hnd acc Hfresh.
  - simpl. by rewrite app_nil_r.
  - destruct Hknown as [?|[defaults Hr]]; [discriminate|].
    inversion Hnd as [|? ? Hnotin Hnd']; subst.
    assert (Hd : differs r (p, v)
                 = negb (String.eqb p "__proto__") && loose_neq v (Obj.get p defaults))
      by (unfold differs; cbn [fst snd]; by rewrite Hr).
    cbn [sanitizeRole List.filter]. unfold overridden. rewrite Hr, Hd.
    assert (Hp : ¬ In p (Obj.keys acc)) by (apply Hfresh; by left).
    assert (Hrest : ∀ q, In q (Obj.keys perms) → ¬ In q (Obj.keys acc))
      by (intros q Hq; apply Hfresh; by right).
    destruct (String.eqb_spec p "__proto__") as [->|Hne]; cbn [negb andb].
    + replace (if loose_neq v (Obj.get "__proto__" defaults)
               then Obj.set "__proto__" v acc else acc) with acc
        by (destruct (loose_neq v _); [by rewrite Obj_set_proto|done]).
      apply IH; [right; by eexists|done|done].
    + destruct (loose_neq v (Obj.get p defaults)).
      * rewrite Obj_set_fresh by done.
        rewrite IH; [rewrite <- app_assoc; reflexivity|right; by eexists|done|].
        intros q Hq. rewrite Obj_keys_app. simpl. intros Hin.
        apply in_app_or in Hin as [Hin|[<-|[]]]; [|done].
        revert Hin. by apply Hrest.
      * apply IH; [right; by eexists|done|done].
Qed.

Lemma sanitizeRoles_closed (m : Permissions) :
  knownRoles m →
  wellKeyed m →
  ∀ acc, (∀ r, In r (Obj.keys m) → ¬ In r (Obj.keys acc)) →
    sanitizeRoles inherited m acc = Ok (acc ++ minimalDiff m).
Proof.
  induction m as [|[r perms] m IH]; intros Hknown [Hnd Hinner] acc Hfresh.
  - simpl. by rewrite app_nil_r.
  - inversion Hnd as [|? ? Hnotin Hnd']; subst.
    assert (Hknown' : knownRoles m) by (intros r' ps Hin; apply Hknown; by right).
    assert (Hkeyed' : wellKeyed m) by (split; [done|intros r' ps Hin; apply (Hinner r'); by right]).
    assert (Hr : ¬ In r (Obj.keys acc)) by (apply Hfresh; by left).
    assert (Hrest : ∀ r', In r' (Obj.keys m) → ¬ In r' (Obj.keys acc))
      by (intros r' Hr'; apply Hfresh; by right).
    cbn [sanitizeRoles].
    rewrite (sanitizeRole_closed r perms); cycle 1.
    { destruct perms as [|e perms]; [by left|right]. apply (Hknown r (e :: perms)); [by left|done]. }
    { apply (Hinner r). by left. }
    { intros p _ []. }
    cbn [app]. unfold minimalDiff. cbn [map List.filter fst snd]. fold (minimalDiff m).
    destruct (String.eqb_spec r "__proto__") as [->|Hne].
    + assert (Hperms : perms = []).
      { destruct perms as [|e perms]; [done|].
        destruct (Hknown "__proto__" (e :: perms)) as [? Hget]; [by left|done|].
        discriminate Hget. }
      subst perms. cbn [List.filter length Nat.eqb negb].
      rewrite Obj_set_proto by done. rewrite Obj_get_absent by done.
      cbv [default from_option id]. cbn [Obj.keys map length Nat.eqb].
      rewrite Obj_delete_absent by done. by apply IH.
    + rewrite Obj_set_fresh by done.
      rewrite Obj_get_last by done. cbv [default from_option id].
      unfold Obj.keys at 1. rewrite length_map.
      destruct (List.filter (differs r) perms) as [|e kept] eqn:Hkept; cbn [length Nat.eqb negb].
      * rewrite Obj_delete_last by done. by apply IH.
      * rewrite IH; [rewrite <- app_assoc; reflexivity|done|done|].
        intros r' Hr'. rewrite Obj_keys_app. simpl. intros Hin.
        apply in_app_or in Hin as [Hin|[<-|[]]]; [|done].
        revert Hin. by apply Hrest.
Qed.


Lemma sanitizePermissions_closed (m : Permissions) :
  wellKeyed m →
  knownRoles m →
  sanitizePermissions inherited m
  = Ok (match minimalDiff m with [] => None | _ :: _ => Some (minimalDiff m) end).
Proof.
  intros Hkeyed Hknown. unfold sanitizePermissions.
  rewrite (sanitizeRoles_closed m Hknown Hkeyed []) by (intros r _ []).
  cbn [app]. by destruct (minimalDiff m).
Qed.

End SanitizeAnyMatrix.



Lemma minimalDiff_cons (r : string) (perms : Obj.t bool) (m : Permissions) :
  minimalDiff ((r, perms) :: m)
  = match List.filter (differs r) perms with
    | [] => minimalDiff m
    | e :: kept => (r, e :: kept) :: minimalDiff m
    end.
Proof.
  unfold minimalDiff. cbn [map List.filter fst snd].
  by destruct (List.filter (differs r) perms).
Qed.






Section SanitizeTwiceAndOutside.

Context (inherited : Prototype).


Lemma sanitizeRoles_app (m1 m2 acc : Permissions) :
  sanitizeRoles inherited (m1 ++ m2) acc
  = match sanitizeRoles inherited m1 acc with
    | Ok acc' => sanitizeRoles inherited m2 acc'
    | Throw e => Throw e
    end.
Proof.
  revert acc. induction m1 as [|[r perms] m1 IH]; intros acc; [reflexivity|].
  cbn [app sanitizeRoles].
  destruct (sanitizeRole inherited r perms []); [apply IH|reflexivity].
Qed.

(** X23.  Outside the default matrix.  A role name that [defaultPermissions]
    neither defines nor inherits makes [sanitizePermissions] throw a
    [TypeError] as soon as that role has a permission, naming the first one;
    the roles before it do not matter.  A role name it inherits from
    [Object.prototype] does not: a permission of that role is kept or dropped
    as the comparison with the inherited value says, and the role itself is
    dropped when its name is [__proto__].  A permission the default matrix
    does not list for a known role is kept whatever its value, unless its
    name is [__proto__]. *)
Theorem sanitizePermissions_outside_the_default :
  (∀ before after r p v perms,
     wellKeyed before →
     knownRoles before →
     Obj.get r defaultPermissions = None →
     inherited r = None →
     sanitizePermissions inherited (before ++ (r, (p, v) :: perms) :: after)
     = Throw ("Cannot read properties of undefined (reading '" +:+ p +:+ "')"))
  ∧ (∀ r defaults p v,
       Obj.get r defaultPermissions = Some defaults →
       Obj.get p defaults = None →
       sanitizePermissions inherited [(r, [(p, v)])]
       = Ok (if String.eqb p "__proto__" then None else Some [(r, [(p, v)])]))
  ∧ (∀ r cmp p v,
       Obj.get r defaultPermissions = None →
       inherited r = Some cmp →
       sanitizePermissions inherited [(r, [(p, v)])]
       = match cmp p v with
         | Throw e => Throw e
         | Ok false => Ok None
         | Ok true =>
             Ok (if String.eqb r "__proto__" || String.eqb p "__proto__"
                 then None
                 else Some [(r, [(p, v)])])
         end).
Proof.
  split; [|split].
  - intros before after r p v perms Hkeyed Hknown Hr Hi.
    unfold sanitizePermissions. rewrite sanitizeRoles_app.
    rewrite (sanitizeRoles_closed inherited before Hknown Hkeyed []) by (intros ? _ []).
    cbn [app sanitizeRoles sanitizeRole]. unfold overridden. by rewrite Hr, Hi.
  - intros r defaults p v Hr Hp.
    rewrite sanitizePermissions_closed.
    + rewrite minimalDiff_cons. cbn [List.filter]. unfold differs. cbn [fst snd].
      rewrite Hr; cbv [default from_option id]; rewrite Hp.
      by destruct (String.eqb p "__proto__").
    + split; [repeat constructor; by intros []|].
      intros r' perms' [[= <- <-]|[]]. repeat constructor. by intros [].
    + intros r' perms' [[= <- <-]|[]] _. by eexists.
  - intros r cmp p v Hr Hi.
    unfold sanitizePermissions. cbn [sanitizeRoles sanitizeRole].
    unfold overridden. rewrite Hr, Hi.
    pose proof (Obj_set_empty_delete r) as Hempty. cbv zeta in Hempty.
    destruct (cmp p v) as [[|]|e]; [| |reflexivity].
    + destruct (String.eqb_spec p "__proto__") as [->|Hp].
      * rewrite (Obj_set_proto v []) by (by intros []).
        rewrite Hempty, orb_true_r. reflexivity.
      * rewrite (Obj_set_fresh p v []) by (done || by intros []). cbn [app].
        destruct (String.eqb_spec r "__proto__") as [->|Hne].
        -- rewrite Obj_set_proto by (by intros []). reflexivity.
        -- rewrite Obj_set_fresh by (done || by intros []). cbn [app Obj.get].
           rewrite String.eqb_refl. reflexivity.
    + rewrite Hempty. reflexivity.
Qed.

End SanitizeTwiceAndOutside.

(** ** Roles, one at a time *)

(** X24.  [createRole] stores the role it is given, under its name and
    description and without permissions, whether or not a role of that name
    is stored already: it never checks the name for uniqueness.  Afterwards
    [getRoleByName] finds a role of that name, the new one if there was
    none.  A role without a name, or with the empty name, is refused and
    nothing is stored. *)
Theorem createRole_stores_without_checking
    (roleData : RoleData) (currentUserId : string) (w : World) :
  db_fault w = None →
  (∀ n, name roleData = Some n →
     n ≠ "" →
     ∃ r w', createRole roleData currentUserId w = (Ok r, w')
             ∧ role_name r = n
             ∧ role_description r = description roleData
             ∧ role_permissions r = []
             ∧ roles w' = roles w ++ [r]
             ∧ (∃ found, fst (getRoleByName n w') = Ok (Some found) ∧ role_name found = n)
             ∧ (find (has_name n) (roles w) = None →
                fst (getRoleByName n w') = Ok (Some r)))
  ∧ (name roleData = None ∨ name roleData = Some "" →
     ∃ message w', createRole roleData currentUserId w = (Throw message, w')
                   ∧ roles w' = roles w).
Proof.
  intros Hdb. split.
  - intros n Hn Hne. unfold createRole, try_catch, RoleModel_save.
    rewrite port_up by done. simpl. rewrite Hn.
    rewrite (truthy_nonempty n Hne). cbv [default from_option id].
    eexists _, _. split; [reflexivity|]. simpl.
    split; [done|]. split; [done|]. split; [done|]. split; [done|].
    assert (Hget : ∀ w1, db_fault w1 = None →
              fst (getRoleByName n w1) = Ok (find (has_name n) (roles w1))).
    { intros w1 H1. unfold getRoleByName, try_catch, RoleModel_findOne.
      by rewrite port_up. }
    rewrite Hget by done. simpl.
    destruct (find (has_name n) (roles w)) as [r0|] eqn:Hfind.
    + split; [|discriminate]. exists r0. rewrite (find_app_Some _ _ _ r0) by done.
      split; [done|]. apply find_some in Hfind as [_ H]. by apply String.eqb_eq in H.
    + rewrite find_app_r by done. simpl. unfold has_name. simpl.
      rewrite String.eqb_refl. split; [|done]. by eexists.
  - intros Hn. unfold createRole, try_catch, RoleModel_save.
    rewrite port_up by done. simpl.
    destruct Hn as [-> | ->]; by eexists _, _.
Qed.

(** ** File names *)

Import Utils.

Lemma word_is_not_space (c : N) : is_word c = true → is_space c = false.
Proof.
  intros Hw. destruct (is_space c) eqn:Hs; [exfalso|reflexivity].
  unfold is_word, is_space in *.
  rewrite ?orb_true_iff, ?andb_true_iff, ?N.leb_le, ?N.eqb_eq in *. lia.
Qed.

Lemma replace_spaces_words (b : bool) (s : jsstring) :
  Forall (λ c, is_word c = true) s → replace_spaces b s = s.
Proof.
  intros Hs. revert b. induction Hs as [|c s Hc Hs IH]; intros b; [reflexivity|].
  simpl. rewrite (word_is_not_space c Hc). by rewrite IH.
Qed.

Lemma filter_all {A} (f : A → bool) (l : list A) :
  Forall (λ x, f x = true) l → List.filter f l = l.
Proof.
  induction 1 as [|x l Hx Hl IH]; simpl; [done|]. by rewrite Hx, IH.
Qed.

Lemma filter_Forall {A} (f : A → bool) (l : list A) :
  Forall (λ x, f x = true) (List.filter f l).
Proof.
  apply List.Forall_forall. intros x Hx. by apply filter_In in Hx as [_ ?].
Qed.

Lemma replace_spaces_length (b : bool) (s : jsstring) :
  (length (replace_spaces b s) ≤ length s)%nat.
Proof.
  revert b. induction s as [|c s IH]; intros b; simpl; [lia|].
  pose proof (IH true). pose proof (IH false).
  destruct (is_space c); [destruct b|]; simpl; lia.
Qed.

(** X25.  [sanitize] returns a string made of letters, digits and
    underscores only, never longer than its argument; it leaves such a
    string as it is, and so sanitising twice changes nothing more. *)
Theorem sanitize_yields_a_safe_name (str : jsstring) :
  Forall (λ c, is_word c = true) (sanitize str)
  ∧ (length (sanitize str) ≤ length str)%nat
  ∧ (Forall (λ c, is_word c = true) str → sanitize str = str)
  ∧ sanitize (sanitize str) = sanitize str.
Proof.
  assert (Hfix : ∀ s, Forall (λ c, is_word c = true) s → sanitize s = s).
  { intros s Hs. unfold sanitize. rewrite replace_spaces_words by done.
    by apply filter_all. }
  split; [apply filter_Forall|]. split.
  - unfold sanitize. pose proof (filter_length_le is_word (replace_spaces false str)).
    pose proof (replace_spaces_length false str). lia.
  - split; [apply Hfix|]. apply Hfix. apply filter_Forall.
Qed.

Lemma lastIndexOf_None (c : N) (s : jsstring) :
  lastIndexOf c s = None ↔ ¬ In c s.
Proof.
  induction s as [|x s IH]; simpl; [tauto|].
  destruct (lastIndexOf c s) as [i|].
  - split; [discriminate|]. intros Hnot. exfalso.
    assert (Hs : ¬ In c s) by tauto. apply IH in Hs. discriminate.
  - destruct (N.eqb_spec x c) as [->|Hne].
    + split; [discriminate|tauto].
    + split; [|done]. intros _ [?|Hin]; [done|]. by apply IH in Hin.
Qed.

Lemma lastIndexOf_Some (c : N) (s : jsstring) (i : nat) :
  lastIndexOf c s = Some i →
  firstn i s ++ c :: skipn (i + 1) s = s ∧ ¬ In c (skipn (i + 1) s).
Proof.
  revert i. induction s as [|x s IH]; intros i; simpl; [discriminate|].
  destruct (lastIndexOf c s) as [j|] eqn:Hj.
  - intros [= <-]. destruct (IH j eq_refl) as [H1 H2]. simpl. by rewrite H1.
  - destruct (N.eqb_spec x c) as [->|_]; [|discriminate].
    intros [= <-]. simpl. split; [done|]. by apply lastIndexOf_None.
Qed.

(** X26.  [removeExtension] splits a file name at its last dot: name, dot
    and extension put together give the file name back, and the extension
    holds no dot.  A file name without a dot is returned whole, with an
    empty extension. *)
Theorem removeExtension_splits_at_the_last_dot (fileName : jsstring) :
  let name := fst (removeExtension fileName) in
  let ext := snd (removeExtension fileName) in
  (In 46%N fileName → name ++ 46%N :: ext = fileName)
  ∧ (¬ In 46%N fileName → name = fileName ∧ ext = [])
  ∧ ¬ In 46%N ext.
Proof.
  unfold removeExtension.
  destruct (lastIndexOf 46 fileName) as [i|] eqn:Hi; simpl.
  - destruct (lastIndexOf_Some 46 fileName i Hi) as [H1 H2].
    split; [done|]. split; [|done].
    intros Hnot. apply lastIndexOf_None in Hnot. congruence.
  - apply lastIndexOf_None in Hi. split; [done|]. split; [done|]. by intros [].
Qed.

(** ** The counter never goes below zero *)

Section CounterInvariant.

Context (argon2 : Argon2).

Lemma login_writes_a_counter (e plain : string) (w : World) :
  users (snd (login argon2 e plain w)) = users w
  ∨ ∃ u p, find (has_email e) (users w) = Some u
           ∧ users (snd (login argon2 e plain w))
             = update_first (has_id (_id u)) (apply_patch p) (users w)
           ∧ (patch_failedAttempts p = Some 0
              ∨ patch_failedAttempts p = Some (or_zero (failedAttempts u) + 1)).
Proof.
  unfold login, bind, db_getUserByEmail, port. simpl.
  destruct (db_fault w) eqn:Hdb; [simpl; tauto|].
  destruct (find (has_email e) (users w)) as [u|] eqn:Hfind; [|simpl; tauto].
  destruct (truthy_string (password u)); simpl; [|tauto].
  match goal with
  | |- context [if ?c then throw _ else _] => destruct c; [simpl; tauto|]
  end.
  unfold try_catch, bind, argon2_verify, db_updateUserAttributes, port, Date_now.
  simpl. destruct (verify argon2 _ plain) as [[|]|err]; simpl.
  - rewrite Hdb. simpl. right. eexists _, _. split; [done|]. split; [done|]. by left.
  - destruct (5 <=? _); simpl; rewrite Hdb; simpl;
      (right; eexists _, _; split; [done|]; split; [done|]; by right).
  - tauto.
Qed.

Lemma update_first_Forall {A} (P : A → Prop) (p : A → bool) (f : A → A) (l : list A) :
  (∀ x, In x l → p x = true → P x → P (f x)) →
  Forall P l → Forall P (update_first p f l).
Proof.
  induction l as [|x l IH]; simpl; intros Hf Hl; [done|].
  inversion Hl as [|? ? Hx Hl']; subst.
  destruct (p x) eqn:Hp; constructor; auto.
Qed.

(** X27.  [login] keeps every stored counter of failed attempts at zero or
    above: if no stored user has a negative [failedAttempts] before, none
    has one after, whatever the outcome of the attempt. *)
Theorem login_keeps_counters_non_negative (e plain : string) (w : World) :
  Forall (λ u : User, 0 ≤ or_zero (failedAttempts u)) (users w) →
  Forall (λ u : User, 0 ≤ or_zero (failedAttempts u))
    (users (snd (login argon2 e plain w))).
Proof.
  intros Hall.
  destruct (login_writes_a_counter e plain w) as [->|(u & p & Hfind & -> & Hp)]; [done|].
  assert (Hu : 0 ≤ or_zero (failedAttempts u)).
  { apply find_some in Hfind as [Hin _].
    rewrite List.Forall_forall in Hall. by apply Hall. }
  apply update_first_Forall; [|done].
  intros x _ _ Hx. simpl. destruct Hp as [-> | ->]; simpl; lia.
Qed.

End CounterInvariant.

(* ===================================================================== *)
(** * Further worked instances *)
(* ===================================================================== *)

Lemma validateSession_store_witness :
  ∃ w', validateSession "s2" world1 = (Ok (sessionOwner "s2" world1), w')
        ∧ users w' = users world1 ∧ sessions w' = sessions world1.
Proof.
  apply validateSession_answers_from_the_store;
    [discriminate|reflexivity|right; left; reflexivity].
Defined.

Lemma validateSession_cache_hit_witness :
  ∃ w', validateSession "s2" world2 = (Ok (Some (User_of_json (User_to_json alice))), w')
        ∧ trace w' = trace world2 ++ [RedisGet "session:s2"]
        ∧ users w' = users world2 ∧ sessions w' = sessions world2.
Proof.
  apply validateSession_cache_hit_bypasses_the_store;
    [discriminate|reflexivity|reflexivity|reflexivity|reflexivity].
Defined.

(** Bob's session is answered by the store with bob as he is stored, then
    by the cache with the string of his lockout date. *)
Lemma validateSession_populates_witness :
  lockoutUntil (JSON_copy bob) = Some (IsoString 500)
  ∧ ∃ w1, validateSession "s2" world4 = (Ok (Some bob), w1)
          ∧ trace w1 = trace world4 ++ [RedisGet "session:s2"; DbValidateSession "s2";
                                        RedisSet "session:s2" (User_to_json bob) 3600]
          ∧ validateSession "s2" w1
            = (Ok (Some (JSON_copy bob)), record (RedisGet "session:s2") w1).
Proof.
  split; [reflexivity|].
  apply (validateSession_populates_the_cache "s2"
           {| session_id := "s2"; user_id := "u1"; device_id := "deviceB"; expires := 1500 |});
    [discriminate|reflexivity|reflexivity|eexists; reflexivity|reflexivity|reflexivity
    |reflexivity|simpl; lia|reflexivity].
Defined.

Lemma destroyed_session_witness :
  ∃ w1 w2, destroySession "s2" world2 = (Ok tt, w1)
           ∧ validateSession "s2" w1 = (Ok None, w2).
Proof.
  apply destroyed_session_no_longer_validates; [discriminate|reflexivity|reflexivity].
Defined.

Lemma logOut_witness :
  ∃ w1, logOut "s2" world2 = (Ok tt, w1)
        ∧ sessionOwner "s2" w1 = None
        ∧ fst (validateSession "s2" w1) = Ok (Some (User_of_json (User_to_json alice))).
Proof.
  destruct (logOut_leaves_the_cache "s2" world2) as (w1 & Hrun & Hgone & _ & _ & Hhit);
    [discriminate|reflexivity|].
  exists w1. split; [exact Hrun|]. split; [exact Hgone|].
  apply Hhit; reflexivity.
Defined.

Lemma verify_failure_witness :
  ∃ w', login failing_argon2 "alice@example.com" "correct horse" world0
        = (Throw "out of memory", w')
        ∧ users w' = users world0
        ∧ trace w' = trace world0 ++ [DbGetUserByEmail "alice@example.com";
                                      Argon2Verify "$argon2id$correct horse" "correct horse"].
Proof.
  apply (verify_failure_is_not_counted failing_argon2 "alice@example.com"
           "correct horse" "out of memory" world0 alice);
    [reflexivity|reflexivity|reflexivity|intros t Ht; discriminate Ht|reflexivity].
Defined.

Lemma createUser_digest_witness :
  ∃ u w', createUser toy_argon2 carol world0 = (Ok u, w')
          ∧ password u = Some "$argon2id$s3cret"
          ∧ ∃ data, trace w' = trace world0 ++ [Argon2Hash "s3cret"; DbCreateUser data]
                    ∧ password data = Some "$argon2id$s3cret".
Proof.
  apply (proj1 (createUser_stores_the_digest toy_argon2 carol world0 eq_refl) "s3cret");
    [reflexivity|discriminate|reflexivity].
Defined.

Lemma created_user_witness :
  ∃ u w1, createUser toy_argon2 carol world0 = (Ok u, w1)
          ∧ (∃ w2, login toy_argon2 "carol@example.com" "s3cret" w1 = (Ok (Some u), w2))
          ∧ ∀ other, verify toy_argon2 "$argon2id$s3cret" other = Ok false →
              fst (login toy_argon2 "carol@example.com" other w1)
              = Throw "Invalid credentials. Please try again.".
Proof.
  apply (created_user_can_log_in toy_argon2 carol "carol@example.com" "s3cret"
           "$argon2id$s3cret" world0);
    [reflexivity|reflexivity|reflexivity|discriminate|reflexivity|discriminate
    |reflexivity|reflexivity].
Defined.

Lemma forgiven_failures_witness :
  ∃ u' w', login toy_argon2 "alice@example.com" "correct horse"
             (set_now 4500 (attempts toy_argon2 "alice@example.com" fourWrong world0))
           = (Ok (Some u'), w')
           ∧ or_zero (failedAttempts u') = 4
           ∧ ∃ stored, find (has_email "alice@example.com") (users w') = Some stored
                       ∧ failedAttempts stored = Some 0
                       ∧ lockoutUntil stored = None.
Proof.
  apply (failures_below_the_threshold_are_forgiven toy_argon2 "alice@example.com"
           "correct horse" alice fourWrong 4500 world0);
    [reflexivity|exact world0_ids|reflexivity|reflexivity|reflexivity|reflexivity
    |repeat (constructor; [reflexivity|]); constructor|simpl; lia|reflexivity].
Defined.

Lemma lockout_window_witness :
  ∃ w', login toy_argon2 "alice@example.com" "wrong again"
          (set_now 1805000 (attempts toy_argon2 "alice@example.com"
                              (fourWrong ++ [(5000, "e")]) world0))
        = (Throw "Account is temporarily locked due to too many failed attempts. Please try again later.", w')
        ∧ ∃ stored, find (has_email "alice@example.com") (users w') = Some stored
                    ∧ failedAttempts stored = Some 6
                    ∧ lockoutUntil stored = Some (DateObject (1805000 + 30 * 60 * 1000)).
Proof.
  apply (after_the_lockout_window toy_argon2 "alice@example.com" alice fourWrong
           (5000, "e") 1805000 "wrong again" world0);
    [reflexivity|exact world0_ids|reflexivity|reflexivity|reflexivity|reflexivity
    |repeat (constructor; [reflexivity|]); constructor|reflexivity|reflexivity
    |simpl; lia|reflexivity].
Defined.


Lemma checkUser_witness :
  checkUser {| query_user_id := Some "u1"; query_email := Some "alice@example.com" |} world0
  = (Ok (Some alice), record (DbGetUserByEmail "alice@example.com") world0)
  ∧ checkUser {| query_user_id := Some "u1"; query_email := Some "" |} world0
    = (Ok (Some bob), record (DbGetUserById "u1") world0).
Proof.
  split.
  - apply (proj1 (checkUser_prefers_the_email _ world0) "alice@example.com");
      [reflexivity|discriminate|reflexivity].
  - apply (proj1 (proj2 (checkUser_prefers_the_email _ world0)) "u1");
      [reflexivity|reflexivity|discriminate|reflexivity].
Defined.

Lemma createSession_twice_witness :
  ∃ s1 w1 s2 w2,
    createSession "u0" "deviceA" (Some 3600) (Some true) world0 = (Ok s1, w1)
    ∧ createSession "u0" "deviceA" (Some 3600) (Some false) (set_now 2000 w1) = (Ok s2, w2)
    ∧ session_id s2 = session_id s1
    ∧ expires s2 = 2000 + 3600
    ∧ sessions w1 = sessions world0 ++ [s1]
    ∧ sessions w2 = sessions world0 ++ [s2]
    ∧ List.filter (session_of "u0" "deviceA") (sessions w2) = [s2].
Proof.
  destruct (createSession_twice_keeps_one_session "u0" "deviceA" (Some 3600) (Some 3600)
              (Some true) (Some false) 2000 world0)
    as (s1 & w1 & s2 & w2 & H1 & H2 & Hid & Hexp & Hs1 & Hs2 & _ & _ & Hone);
    [reflexivity|discriminate|discriminate|reflexivity|intros []|simpl; lia|simpl; lia|].
  exists s1, w1, s2, w2. repeat split; try assumption. by apply Hone.
Defined.

Lemma cleared_session_witness :
  ∃ w', clearCachedSession "s2" world2 = (Ok tt, w')
        ∧ fst (getCachedSession "s2" w') = Ok None.
Proof.
  apply cleared_session_is_not_cached; [eexists; reflexivity|reflexivity].
Defined.

Lemma independent_entries_witness :
  fst (getCachedSession "s2" (snd (clearCachedSession "s9" world2)))
  = fst (getCachedSession "s2" world2).
Proof.
  apply (proj2 (session_cache_entries_are_independent "s9" "s2" alice None world2
                  ltac:(discriminate))).
Defined.

Lemma initializeRedis_witness :
  ∃ w', initializeRedis (Throw "ECONNREFUSED") (set_redisClient None world0) = (Ok tt, w')
        ∧ isRedisEnabled w' = false.
Proof.
  destruct (initializeRedis_outcome (Throw "ECONNREFUSED") (set_redisClient None world0) eq_refl)
    as (w' & Hrun & Hiff & _).
  exists w'. split; [exact Hrun|].
  destruct (isRedisEnabled w') eqn:He; [|reflexivity].
  destruct (proj1 Hiff eq_refl) as [_ [keys Hk]]. discriminate Hk.
Defined.





(** A permission of guest throws; one of constructor, a name every plain
    object inherits, does not; a permission named [__proto__] is dropped. *)
Lemma outside_the_default_witness :
  sanitizePermissions Object_prototype
    [("admin", [("create", true)]); ("guest", [("read", true)])]
  = Throw "Cannot read properties of undefined (reading 'read')"
  ∧ sanitizePermissions Object_prototype [("constructor", [("read", true)])]
    = Ok (Some [("constructor", [("read", true)])])
  ∧ sanitizePermissions Object_prototype [("admin", [("__proto__", true)])] = Ok None.
Proof.
  destruct (sanitizePermissions_outside_the_default Object_prototype)
    as (Hthrow & Hkeep & Hinherit).
  split; [|split].
  - apply (Hthrow [("admin", [("create", true)])] [] "guest" "read" true []).
    + split; [repeat constructor; by intros []|].
      intros r perms [H|[]]. injection H as <- <-. repeat constructor. by intros [].
    + intros r perms [H|[]] _. injection H as <- <-. eexists. reflexivity.
    + reflexivity.
    + reflexivity.
  - apply (Hinherit "constructor" (λ _ _, Ok true) "read" true); reflexivity.
  - exact (Hkeep "admin" _ "__proto__" true eq_refl eq_refl).
Defined.

Lemma createRole_witness :
  ∃ r w', createRole {| name := Some "moderator"; description := None |} "u0" world0 = (Ok r, w')
          ∧ role_name r = "moderator"
          ∧ roles w' = roles world0 ++ [r]
          ∧ fst (getRoleByName "moderator" w') = Ok (Some r).
Proof.
  destruct (proj1 (createRole_stores_without_checking
                     {| name := Some "moderator"; description := None |} "u0" world0 eq_refl)
              "moderator" eq_refl ltac:(discriminate))
    as (r & w' & Hrun & Hn & _ & _ & Hroles & _ & Hget).
  exists r, w'. repeat split; try assumption. apply Hget. reflexivity.
Defined.

Lemma removeExtension_witness :
  removeExtension archive = ([97; 46; 116; 97; 114]%N, [103; 122]%N)
  ∧ fst (removeExtension archive) ++ 46%N :: snd (removeExtension archive) = archive.
Proof.
  split; [reflexivity|].
  apply (proj1 (removeExtension_splits_at_the_last_dot archive)).
  simpl. tauto.
Defined.

Lemma counters_witness :
  Forall (λ u : User, 0 ≤ or_zero (failedAttempts u))
    (users (snd (login toy_argon2 "bob@example.com" "guess" world0))).
Proof.
  apply login_keeps_counters_non_negative.
  repeat constructor; simpl; lia.
Defined.
